(** * Review-analytics engine: shallow embedding and verified properties

    The Python sources embedded here are
    - [pages/1_Overview.py]: the score clean-up, [parse_version],
      [robust_eval_list], the keyword preparation with
      [normalize_kw_display], the cluster aggregation block with
      [determine_group_type], and the version ordering;
    - [pages/3_Update_Impact_Checker.py]: the score clean-up, the per-change
      matching loop and [compute_score];
    - [Main.py]: the [cluster_info] construction of [load_data].

    Modelling conventions.
    - A Python [str] is the list of its Unicode code points ([pystr]).
      String constants of the source are written as UTF-8 literals and
      decoded by [py].
    - Python floats are idealised as exact rationals ([Qc]) extended with
      NaN ([pyfloat]); integers are [Z] or [N].
    - Code that may raise returns an [outcome].
    - A dict is a [gmap]; a DataFrame is the list of its rows. *)

From Stdlib Require Import List ZArith NArith QArith Qcanon Qround Lia String Ascii.
From Stdlib Require Import Permutation Sorting.Sorted.
From stdpp Require Import base numbers list strings gmap.

Local Open Scope N_scope.

(** ** Python strings as code-point sequences *)

Module PyStr.

Abbreviation pystr := (list N).

(** UTF-8 decoding of the bytes of a literal. Malformed tails are dropped;
    every literal of this development is well formed. *)
Fixpoint utf8_decode (bs : list N) : pystr :=
  match bs with
  | [] => []
  | b :: rest =>
    if b <? 128 then b :: utf8_decode rest
    else if b <? 224 then
      match rest with
      | c :: rest' => ((b - 192) * 64 + (c - 128)) :: utf8_decode rest'
      | _ => []
      end
    else if b <? 240 then
      match rest with
      | c :: d :: rest' =>
        ((b - 224) * 4096 + (c - 128) * 64 + (d - 128)) :: utf8_decode rest'
      | _ => []
      end
    else
      match rest with
      | c :: d :: e :: rest' =>
        ((b - 240) * 262144 + (c - 128) * 4096 + (d - 128) * 64 + (e - 128))
          :: utf8_decode rest'
      | _ => []
      end
  end.

Definition py (s : string) : pystr :=
  utf8_decode (map N_of_ascii (list_ascii_of_string s)).

(** Characters the sources name explicitly. *)
Definition ch_space : N := 32.
Definition ch_dquote : N := 34.
Definition ch_squote : N := 39.
Definition ch_comma : N := 44.
Definition ch_hyphen : N := 45.
Definition ch_backslash : N := 92.
Definition ch_lbracket : N := 91.
Definition ch_rbracket : N := 93.
Definition ch_underscore : N := 95.

(** The characters [str.strip()] removes: CPython's [Py_UNICODE_ISSPACE]. *)
Definition is_space (c : N) : bool :=
  ((9 <=? c) && (c <=? 13)) || ((28 <=? c) && (c <=? 32))
  || (c =? 133) || (c =? 160) || (c =? 5760)
  || ((8192 <=? c) && (c <=? 8202))
  || (c =? 8232) || (c =? 8233) || (c =? 8239) || (c =? 8287) || (c =? 12288).

Fixpoint lstrip (s : pystr) : pystr :=
  match s with
  | [] => []
  | c :: s' => if is_space c then lstrip s' else s
  end.

Definition rstrip (s : pystr) : pystr := rev (lstrip (rev s)).

(** [s.strip()] *)
Definition strip (s : pystr) : pystr := rstrip (lstrip s).

(** [s.replace(c, "")] for a one-character [c] *)
Definition remove_char (c : N) (s : pystr) : pystr :=
  filter (fun d => negb (d =? c)) s.

(** [s.split(c)] for a one-character separator: never the empty list. *)
Fixpoint split_on (c : N) (s : pystr) : list pystr :=
  match s with
  | [] => [[]]
  | d :: s' =>
    if d =? c then [] :: split_on c s'
    else match split_on c s' with
         | [] => [[d]]
         | tok :: toks => (d :: tok) :: toks
         end
  end.

Fixpoint startswith (p s : pystr) : bool :=
  match p, s with
  | [], _ => true
  | a :: p', b :: s' => (a =? b) && startswith p' s'
  | _ :: _, [] => false
  end.

Definition endswith (p s : pystr) : bool := startswith (rev p) (rev s).

(** [s] begins with [p]. *)
Definition has_prefix (p s : pystr) : Prop := exists rest, s = p ++ rest.

Definition str_eqb (a b : pystr) : bool := bool_decide (a = b).

(** [sep.join(parts)] *)
Fixpoint join (sep : pystr) (parts : list pystr) : pystr :=
  match parts with
  | [] => []
  | [p] => p
  | p :: ps => p ++ sep ++ join sep ps
  end.

End PyStr.
Export PyStr.

(** ** Values, floats and outcomes *)

(** A float: a finite value, idealised as an exact rational, or NaN. *)
Inductive pyfloat :=
| Fin (q : Qc)
| NaN.

(** Cell values the normalizer meets. List elements are scalars: nested
    sequences are outside the model. *)
Inductive scalar :=
| SNone
| SNaN
| SNum (q : Qc)
| SStr (s : pystr).

Inductive pyval :=
| Atom (x : scalar)
| PyList (l : list scalar).

Inductive pyexn := ValueError.

Inductive outcome (A : Type) :=
| Returns (a : A)
| Raises (e : pyexn).
Arguments Returns {A} a.
Arguments Raises {A} e.

(** ** Keyword consolidation ([normalize_kw_display]) *)

Module Keywords.

(** The entries of [map_dict], in source order. *)
Definition map_entries : list (pystr * pystr) :=
  [ (py "재미있는", py "재미"); (py "재밌는", py "재미"); (py "꿀잼", py "재미");
    (py "존잼", py "재미"); (py "잼", py "재미");
    (py "게임플레이", py "게임"); (py "플레이", py "게임"); (py "Game", py "게임");
    (py "업뎃", py "업데이트"); (py "패치", py "업데이트");
    (py "업그레이드", py "업데이트");
    (py "타격", py "타격감");
    (py "랙", py "최적화"); (py "렉", py "최적화"); (py "튕김", py "최적화");
    (py "발열", py "최적화"); (py "버벅", py "최적화"); (py "끊김", py "최적화");
    (py "캐릭", py "캐릭터"); (py "여캐", py "캐릭터"); (py "남캐", py "캐릭터");
    (py "현질", py "과금"); (py "과금유도", py "과금");
    (py "운영자", py "운영"); (py "개발자", py "운영");
    (py "스토리", py "스토리");
    (py "아트", py "아트/그래픽"); (py "그래픽", py "아트/그래픽");
    (py "일러", py "아트/그래픽"); (py "일러스트", py "아트/그래픽") ].

Definition map_dict : gmap pystr pystr := list_to_map map_entries.

Definition normalize_kw_display (text : scalar) : scalar :=
  match text with
  | SStr t =>
    let text := strip t in
    let text_ns := remove_char ch_space text in
    match map_dict !! text with
    | Some v => SStr v
    | None =>
      match map_dict !! text_ns with
      | Some v => SStr v
      | None => SStr text
      end
    end
  | _ => text
  end.

(** A string on which the lookup order of [normalize_kw_display] (raw
    trimmed token, then whitespace-free token) gives the string back. *)
Definition fixed_token (v : pystr) : bool :=
  str_eqb (strip v) v &&
  match map_dict !! v with
  | Some w => str_eqb w v
  | None =>
    match map_dict !! remove_char ch_space v with
    | Some w => str_eqb w v
    | None => true
    end
  end.

End Keywords.

(** ** Sorting as [sorted(xs, key=...)] does it *)

Section Sorting.

Context {A K : Type} (ltb : K -> K -> bool) (key : A -> K).

(** Insertion that keeps the order of elements with equal keys: [x] comes
    from the left of everything already in [l]. *)
Fixpoint insert_by (x : A) (l : list A) : list A :=
  match l with
  | [] => [x]
  | y :: l' =>
    if ltb (key y) (key x) then y :: insert_by x l' else x :: y :: l'
  end.

(** A stable sort that compares keys with [<] only, as Python's does. *)
Definition sorted_by (l : list A) : list A := foldr insert_by [] l.

(** [x] may stand before [y] in a sorted result: the key of [y] is not
    smaller. *)
Definition key_le (x y : A) : Prop := ltb (key y) (key x) = false.

End Sorting.

(** [Series.unique()]: distinct values in order of first appearance. *)
Fixpoint unique {A : Type} `{EqDecision A} (l : list A) : list A :=
  match l with
  | [] => []
  | x :: l' => x :: filter (fun y => negb (bool_decide (y = x))) (unique l')
  end.

(** [Series.dropna()] on a column whose missing cells are [None]. *)
Definition dropna {A : Type} (l : list (option A)) : list A := omap id l.

(** ** Version parsing and ordering *)

Module Versions.

Definition is_ascii_letter (c : N) : bool :=
  ((97 <=? c) && (c <=? 122)) || ((65 <=? c) && (c <=? 90)).

(** The class [[a-zA-Z_-]] of the [re.sub] call. *)
Definition in_strip_class (c : N) : bool :=
  is_ascii_letter c || (c =? ch_underscore) || (c =? ch_hyphen).

(** [\d], restricted to the ASCII digits. *)
Definition is_digit (c : N) : bool := (48 <=? c) && (c <=? 57).

(** [re.findall(r'\d+', s)]: the maximal digit runs, left to right.
    [cur] is the run being read, most recent digit first. *)
Fixpoint findall_digits_from (cur : pystr) (s : pystr) : list pystr :=
  match s with
  | [] => match cur with [] => [] | _ => [rev cur] end
  | c :: s' =>
    if is_digit c then findall_digits_from (c :: cur) s'
    else match cur with
         | [] => findall_digits_from [] s'
         | _ => rev cur :: findall_digits_from [] s'
         end
  end.

Definition findall_digits (s : pystr) : list pystr := findall_digits_from [] s.

(** [int(n)] on a digit run. *)
Definition int_of_digits (n : pystr) : N :=
  fold_left (fun acc c => 10 * acc + (c - 48)) n 0.

(** [parse_version]: the returned tuple is a list here; it has length 3
    ([parse_version_length]). A non-string argument gives [(0, 0, 0)]. *)
Definition parse_version (v_str : scalar) : list N :=
  match v_str with
  | SStr v =>
    let clean_v := filter (fun c => negb (in_strip_class c)) v in
    let nums := map int_of_digits (findall_digits clean_v) in
    let nums := nums ++ repeat 0 (3 - length nums)%nat in
    firstn 3 nums
  | _ => [0; 0; 0]
  end.

(** Python's [<] on tuples of integers: lexicographic, a proper prefix is
    smaller. *)
Fixpoint tuple_ltb (a b : list N) : bool :=
  match a, b with
  | [], [] => false
  | [], _ :: _ => true
  | _ :: _, [] => false
  | x :: a', y :: b' => (x <? y) || ((x =? y) && tuple_ltb a' b')
  end.

(** Python's [<] on strings: lexicographic by code point. *)
Definition str_ltb (a b : pystr) : bool := tuple_ltb a b.





(** A row of the trend view: [appVersion] (missing = [None]) and the
    parsed timestamp [at]; rows without a timestamp are already dropped. *)
Record trend_row := { appVersion : option pystr; at_time : Z }.

Definition unique_versions (df : list trend_row) : list pystr :=
  unique (dropna (map appVersion df)).

(** [df.groupby("appVersion")["at"].min()]: one entry per version, in key
    order, with the earliest timestamp of its rows. *)
Definition min_at (df : list trend_row) (v : pystr) : Z :=
  let ts := map at_time (filter (fun r => bool_decide (appVersion r = Some v)) df) in
  match ts with
  | [] => 0%Z
  | t :: ts' => fold_left Z.min ts' t
  end.

Definition date_order (df : list trend_row) : list pystr :=
  let groups := sorted_by str_ltb id (unique_versions df) in
  sorted_by Z.ltb (min_at df) groups.

(** The [try] block: [parse_version] performs no raising operation and its
    keys are tuples of integers, so the sort returns. *)
Definition try_semantic_sort (vs : list pystr) : outcome (list pystr) :=
  Returns (sorted_by tuple_ltb (fun v => parse_version (SStr v)) vs).

(** [ver_order] of the version branch of the trend view. *)
Definition ver_order (df : list trend_row) : list pystr :=
  match try_semantic_sort (unique_versions df) with
  | Returns order => order
  | Raises _ => date_order df
  end.


(** Three versions whose release dates run against their numbers; one of
    them has no digit. *)
Definition trend_example : list trend_row :=
  [ {| appVersion := Some (py "2.0"); at_time := 1 |};
    {| appVersion := Some (py "abc"); at_time := 2 |};
    {| appVersion := Some (py "1.0"); at_time := 3 |} ].

End Versions.

(** ** Float helpers *)

Definition is_na (x : scalar) : bool :=
  match x with
  | SNone | SNaN => true
  | _ => false
  end.

Definition Qc_of_nat (n : nat) : Qc := Qc_of_Z (Z.of_nat n).

Definition Qc_sum (l : list Qc) : Qc := foldr Qcplus 0%Qc l.

(** [Series.mean()] of a column without missing cells: NaN when empty. *)
Definition mean (l : list Qc) : pyfloat :=
  match l with
  | [] => NaN
  | _ => Fin (Qc_sum l / Qc_of_nat (length l))%Qc
  end.

Definition fmul (a b : pyfloat) : pyfloat :=
  match a, b with
  | Fin x, Fin y => Fin (x * y)%Qc
  | _, _ => NaN
  end.

Definition fadd (a b : pyfloat) : pyfloat :=
  match a, b with
  | Fin x, Fin y => Fin (x + y)%Qc
  | _, _ => NaN
  end.

Definition fsub (a b : pyfloat) : pyfloat :=
  match a, b with
  | Fin x, Fin y => Fin (x - y)%Qc
  | _, _ => NaN
  end.

(** Comparisons with NaN are false. *)
Definition fleb (a b : pyfloat) : bool :=
  match a, b with
  | Fin x, Fin y => bool_decide (x ≤ y)%Qc
  | _, _ => false
  end.

Definition fltb (a b : pyfloat) : bool :=
  match a, b with
  | Fin x, Fin y => bool_decide (x < y)%Qc
  | _, _ => false
  end.

(** [x] is a number and that number is at most [q]. *)
Definition at_most (x : pyfloat) (q : Qc) : Prop :=
  exists v, x = Fin v /\ (v ≤ q)%Qc.

(** ** Frequency tables *)

Global Instance scalar_eq_dec : EqDecision scalar.
Proof. solve_decision. Defined.

Definition count_of {A : Type} `{EqDecision A} (x : A) (l : list A) : nat :=
  length (filter (fun y => bool_decide (y = x)) l).

(** [value_counts()] / [Counter.most_common()]: distinct values with their
    counts, most frequent first, ties in order of first appearance. *)
Definition value_counts {A : Type} `{EqDecision A} (l : list A) : list (A * nat) :=
  sorted_by (fun a b => Nat.ltb b a) snd (map (fun x => (x, count_of x l)) (unique l)).

(** ** Cluster aggregation *)

Module Clusters.

(** A row of the loaded frame. [cluster] is a string: [load_data] stores
    the column with [astype(str)], a missing column as ["-1"]. *)
Record review := {
  reviewId : scalar;
  cluster : pystr;
  intensity : Qc;
  score : Z;
  sentiment_label : pystr;
  categories : scalar;
  keywords : option pystr
}.

Definition SENTINEL : pystr := py "-1".

(** [get_top_item] *)
Definition get_top_item (series : list scalar) : scalar :=
  match value_counts (filter (fun x => negb (is_na x)) series) with
  | (x, _) :: _ => x
  | [] => SStr (py "Unknown")
  end.

(** A row of [base_stats] after [groupby("cluster").agg(...)]. *)
Record stats_row := {
  row_cluster : pystr;
  count : nat;
  avg_intensity : pyfloat;
  avg_score : pyfloat;
  main_sentiment : scalar;
  main_category : scalar
}.

(** [c_df = c_df[c_df['cluster'].astype(str) != "-1"]] *)
Definition drop_noise (df : list review) : list review :=
  filter (fun r => negb (str_eqb (cluster r) SENTINEL)) df.

Definition aggregate (c_df : list review) (cid : pystr) : stats_row :=
  let g := filter (fun r => str_eqb (cluster r) cid) c_df in
  {| row_cluster := cid;
     count := length (filter (fun r => negb (is_na (reviewId r))) g);
     avg_intensity := mean (map intensity g);
     avg_score := mean (map (fun r => Qc_of_Z (score r)) g);
     main_sentiment := get_top_item (map (fun r => SStr (sentiment_label r)) g);
     main_category := get_top_item (map categories g) |}.

(** [base_stats]: one row per cluster id of the filtered frame, ids in
    sorted order. *)
Definition base_stats (df : list review) : list stats_row :=
  let c_df := drop_noise df in
  map (aggregate c_df) (sorted_by Versions.str_ltb id (unique (map cluster c_df))).

Definition impact_score (row : stats_row) : pyfloat :=
  fmul (Fin (Qc_of_nat (count row))) (avg_intensity row).

Inductive group := NegativeRisk | PositiveStrength.

Definition group_eqb (a b : group) : bool :=
  match a, b with
  | NegativeRisk, NegativeRisk | PositiveStrength, PositiveStrength => true
  | _, _ => false
  end.

(** The fallback threshold 3.2 *)
Definition RISK_THRESHOLD : Qc := Q2Qc (16 # 5).

Definition determine_group_type (row : stats_row) : group :=
  let cid := row_cluster row in
  if startswith (py "N-") cid then NegativeRisk
  else if startswith (py "P-") cid then PositiveStrength
  else if fleb (avg_score row) (Fin RISK_THRESHOLD) then NegativeRisk
  else PositiveStrength.

(** Top 5 by impact within one group, highest first. *)
Definition top5 (g : group) (stats : list stats_row) : list stats_row :=
  firstn 5 (sorted_by (fun a b => fltb b a) impact_score
              (filter (fun row => group_eqb (determine_group_type row) g) stats)).

(** [cluster_stats = pd.concat([final_neg, final_pos])] *)
Definition cluster_stats (df : list review) : list stats_row :=
  let stats := base_stats df in
  top5 NegativeRisk stats ++ top5 PositiveStrength stats.

(** Rows for the three branches of [determine_group_type]. *)
Definition row_example (cid : pystr) (avg : Qc) : stats_row :=
  {| row_cluster := cid; count := 10; avg_intensity := Fin (Qc_of_Z 3);
     avg_score := Fin avg; main_sentiment := SStr (py "Negative");
     main_category := SStr (py "Unknown") |}.

Section ClusterInfo.

(** [ast.literal_eval]: [None] when it raises. *)
Variable literal_eval : pystr -> option pyval.

(** The keywords one cell contributes to [kws]. *)
Definition cell_keywords (k_str : pystr) : list scalar :=
  match literal_eval k_str with
  | Some (PyList actual_list) => actual_list
  | Some (Atom _) => [SStr k_str]
  | None => [SStr k_str]
  end.

(** The loop body of [load_data] for one cluster id. *)
Definition cluster_keywords (main_df : list review) (cid : pystr) : list scalar :=
  let sample := firstn 50 (filter (fun r => str_eqb (cluster r) cid) main_df) in
  let kws := concat (map cell_keywords (dropna (map keywords sample))) in
  map fst (firstn 10 (value_counts kws)).

(** [cluster_info] of [load_data]: the ids are visited in order of first
    appearance and the sentinel is skipped. *)
Definition cluster_info (main_df : list review) : gmap pystr (list scalar) :=
  fold_left
    (fun info cid =>
       if str_eqb cid SENTINEL then info
       else <[cid := cluster_keywords main_df cid]> info)
    (unique (map cluster main_df)) ∅.

End ClusterInfo.

End Clusters.

(** ** The list-field parser ([robust_eval_list]) *)

Module ListField.

(** An exception raised by a step ends the computation. *)
Global Instance outcome_bind : MBind outcome := fun A B f m =>
  match m with
  | Returns a => f a
  | Raises e => Raises e
  end.

(** The truth value of [pd.isna(val)] in [if pd.isna(val) or ...]. For a
    list [pd.isna] answers element by element with an array, and the truth
    value of an array with two or more elements raises [ValueError]; an
    array of one element has the truth value of that element and an empty
    array is false (NumPy before 2.2; later releases raise there too). *)
Definition isna_truth (val : pyval) : outcome bool :=
  match val with
  | Atom x => Returns (is_na x)
  | PyList [] => Returns false
  | PyList [x] => Returns (is_na x)
  | PyList (_ :: _ :: _) => Raises ValueError
  end.

(** The comma-split heuristic on the trimmed string. *)
Definition split_heuristic (val : pystr) : list scalar :=
  let cleaned :=
    remove_char ch_dquote
      (remove_char ch_squote
         (remove_char ch_rbracket (remove_char ch_lbracket val))) in
  map SStr
      (filter (fun x => negb (str_eqb x []))
              (map strip (split_on ch_comma cleaned))).

Definition bracketed (val : pystr) : bool :=
  startswith [ch_lbracket] val && endswith [ch_rbracket] val.

Section Parser.

(** [ast.literal_eval] on a string: [None] when it raises. *)
Variable literal_eval : pystr -> option pyval.

(** The [try: return ast.literal_eval(val) except: pass] block, reached
    only for a bracketed string. *)
Definition try_literal (val : pystr) : option pyval :=
  if bracketed val then literal_eval val else None.

Definition robust_eval_list (val : pyval) : outcome pyval :=
  na ← isna_truth val;
  if (na : bool) then Returns (PyList [])
  else
    match val with
    | Atom (SStr []) => Returns (PyList [])
    | PyList _ => Returns val
    | Atom (SStr s) =>
      let val := strip s in
      if str_eqb val (py "[]") then Returns (PyList [])
      else
        match try_literal val with
        | Some parsed => Returns parsed
        | None => Returns (PyList (split_heuristic val))
        end
    | Atom _ => Returns (PyList [])
    end.




End Parser.

(** *** A reference fragment of [ast.literal_eval]

    List displays of plain quoted strings: ['a', "b"]. Items are
    separated by commas with optional blanks; no escapes, prefixes, numbers
    or nesting. On this fragment the result is the one Python computes;
    outside it the function answers [None], which says nothing about
    Python's result there. *)

Inductive scan_state :=
| Start
| Open
| InStr (q : N) (acc : pystr)
| AfterItem
| AfterComma
| Closed.

Definition is_quote (c : N) : bool := (c =? ch_squote) || (c =? ch_dquote).

(** Characters allowed unescaped inside the quotes. *)
Definition plain_char (c : N) : bool :=
  (32 <=? c) && negb (c =? ch_backslash)
  && ((c <? 55296) || ((57343 <? c) && (c <=? 1114111))).

Fixpoint scan (st : scan_state) (items : list pystr) (s : pystr) : option (list pystr) :=
  match s with
  | [] => match st with Closed => Some (rev items) | _ => None end
  | c :: s' =>
    match st with
    | Start => if c =? ch_lbracket then scan Open items s' else None
    | Open =>
      if c =? ch_space then scan Open items s'
      else if c =? ch_rbracket then scan Closed items s'
      else if is_quote c then scan (InStr c []) items s'
      else None
    | InStr q acc =>
      if c =? q then scan AfterItem (rev acc :: items) s'
      else if plain_char c then scan (InStr q (c :: acc)) items s'
      else None
    | AfterItem =>
      if c =? ch_space then scan AfterItem items s'
      else if c =? ch_comma then scan AfterComma items s'
      else if c =? ch_rbracket then scan Closed items s'
      else None
    | AfterComma =>
      if c =? ch_space then scan AfterComma items s'
      else if is_quote c then scan (InStr c []) items s'
      else None
    | Closed => None
    end
  end.

Definition literal_eval_flat (s : pystr) : option pyval :=
  match scan Start [] s with
  | Some items => Some (PyList (map SStr items))
  | None => None
  end.


(** *** The three encodings of a keyword list *)

Definition native (ks : list pystr) : pyval := PyList (map SStr ks).



(** a,b with the blanks [pad] after each comma *)
Definition delimited (pad : pystr) (ks : list pystr) : pyval :=
  Atom (SStr (join (ch_comma :: pad) ks)).

Definition structural (c : N) : bool :=
  (c =? ch_comma) || (c =? ch_lbracket) || (c =? ch_rbracket)
  || (c =? ch_squote) || (c =? ch_dquote).

(** The string is not empty and does not begin with a blank. *)
Definition starts_nonblank (k : pystr) : bool :=
  match k with
  | [] => false
  | c :: _ => negb (is_space c)
  end.

(** A keyword every encoding can carry: not empty, no blank at either end,
    none of the characters the parser treats as structure. *)
Definition clean (k : pystr) : bool :=
  starts_nonblank k && starts_nonblank (rev k)
  && forallb (fun c => plain_char c && negb (structural c)) k.



End ListField.

(** ** Score coercion on the two pages *)

Module Scores.

(** A raw row: the timestamp after [pd.to_datetime(errors="coerce")]
    ([None] = NaT), the score cell as loaded, the review text. *)
Record raw_row := {
  raw_at : option Z;
  raw_score : scalar;
  raw_content : option pystr
}.

(** A cleaned row. *)
Record row := {
  at_time : Z;
  score : Z;
  content : option pystr
}.

(** [astype(int)] on a float: truncation toward zero. *)
Definition trunc (q : Qc) : Z := Z.quot (Qnum q) (Z.pos (Qden q)).

Section Coercion.

(** The number pandas reads from a text cell, [None] when the text is not
    a number. *)
Variable parse_number : pystr -> option Qc.

(** [pd.to_numeric(x, errors="coerce")] on one cell. *)
Definition to_numeric (x : scalar) : pyfloat :=
  match x with
  | SNum q => Fin q
  | SStr s => match parse_number s with Some q => Fin q | None => NaN end
  | SNone | SNaN => NaN
  end.

(** Overview: [to_numeric(...).fillna(0).astype(int)] *)
Definition overview_score (x : scalar) : Z :=
  match to_numeric x with
  | Fin q => trunc q
  | NaN => 0%Z
  end.




(** Update Impact Checker preprocessing: rows without a timestamp or
    without a numeric score are dropped. *)
Definition checker_frame (df : list raw_row) : list row :=
  omap (fun r =>
          match raw_at r, to_numeric (raw_score r) with
          | Some t, Fin q => Some {| at_time := t;
                                     score := trunc q;
                                     content := raw_content r |}
          | _, _ => None
          end) df.





End Coercion.

(** A stand-in for the text reader: unsigned runs of ASCII digits. *)
Definition parse_digits (s : pystr) : option Qc :=
  match s with
  | [] => None
  | _ => if forallb Versions.is_digit s
         then Some (Qc_of_Z (Z.of_N (Versions.int_of_digits s)))
         else None
  end.


End Scores.

(** ** The update-impact comparison *)

Module Impact.

Import Scores.

Definition before_part (df : list row) (update_date : Z) : list row :=
  filter (fun r => (at_time r <? update_date)%Z) df.

Definition after_part (df : list row) (update_date : Z) : list row :=
  filter (fun r => (update_date <=? at_time r)%Z) df.

(** The characters up to the next blank. *)
Fixpoint token_prefix (s : pystr) : pystr :=
  match s with
  | [] => []
  | c :: s' => if is_space c then [] else c :: token_prefix s'
  end.

(** [change.split()[0]], [None] when there is no token. *)
Definition first_token (change : pystr) : option pystr :=
  match lstrip change with
  | [] => None
  | s => Some (token_prefix s)
  end.

(** [str.upper()], restricted to the ASCII letters. *)
Definition upper (s : pystr) : pystr :=
  map (fun c => if (97 <=? c) && (c <=? 122) then c - 32 else c) s.

Fixpoint is_infix (p s : pystr) : bool :=
  startswith p s || match s with [] => false | _ :: s' => is_infix p s' end.

(** [content.fillna("").str.contains(keyword, case=False, regex=False)] *)
Definition contains (keyword : pystr) (r : row) : bool :=
  is_infix (upper keyword) (upper (default [] (content r))).

(** One dict of [results]. *)
Record result := {
  r_change : pystr;
  r_before_count : nat;
  r_after_count : nat;
  r_before_avg : option Qc;
  r_after_avg : option Qc
}.

(** [sub["score"].mean() if len(sub) > 0 else None] *)
Definition avg_or_none (sub : list row) : option Qc :=
  match sub with
  | [] => None
  | _ => Some (Qc_sum (map (fun r => Qc_of_Z (score r)) sub) / Qc_of_nat (length sub))%Qc
  end.

Definition results (before_df after_df : list row) (changes : list pystr) : list result :=
  omap (fun change =>
          match first_token change with
          | None => None
          | Some keyword =>
            let before_sub := filter (contains keyword) before_df in
            let after_sub := filter (contains keyword) after_df in
            Some {| r_change := change;
                    r_before_count := length before_sub;
                    r_after_count := length after_sub;
                    r_before_avg := avg_or_none before_sub;
                    r_after_avg := avg_or_none after_sub |}
          end) changes.

(** A cell of the average columns of [impact_df]. *)
Inductive cell :=
| CNone
| CFloat (x : pyfloat).

(** [pd.DataFrame(results)] on a column of floats and [None]s: a column
    holding only [None] stays an object column; as soon as one entry is a
    number the column is a float column and every [None] in it is NaN. *)
Definition to_column (vals : list (option Qc)) : list cell :=
  if forallb (fun v => bool_decide (v = None)) vals
  then map (fun _ => CNone) vals
  else map (fun v => match v with
                     | Some q => CFloat (Fin q)
                     | None => CFloat NaN
                     end) vals.

(** The row [compute_score] receives from [impact_df.apply(..., axis=1)]. *)
Record impact_row := {
  change : pystr;
  before_count : nat;
  after_count : nat;
  before_avg : cell;
  after_avg : cell
}.

Fixpoint zip_rows (rs : list result) (bs as_ : list cell) : list impact_row :=
  match rs, bs, as_ with
  | r :: rs', b :: bs', a :: as' =>
    {| change := r_change r;
       before_count := r_before_count r;
       after_count := r_after_count r;
       before_avg := b;
       after_avg := a |} :: zip_rows rs' bs' as'
  | _, _, _ => []
  end.

Definition impact_df (rs : list result) : list impact_row :=
  zip_rows rs (to_column (map r_before_avg rs)) (to_column (map r_after_avg rs)).

(** [max(s, 0)]: the second argument wins only when it is greater. *)
Definition pymax (a b : pyfloat) : pyfloat := if fltb a b then b else a.

Definition round_half_even (q : Qc) : Z :=
  let f := Qfloor q in
  let r := (q - Qc_of_Z f)%Qc in
  let half := (1 / 2)%Qc in
  if bool_decide (r < half)%Qc then f
  else if bool_decide (half < r)%Qc then (f + 1)%Z
  else if Z.even f then f else (f + 1)%Z.

(** [round(x, 2)] *)
Definition round2 (q : Qc) : Qc :=
  (Qc_of_Z (round_half_even (q * Qc_of_Z 100)) / Qc_of_Z 100)%Qc.

Definition fround2 (x : pyfloat) : pyfloat :=
  match x with
  | Fin q => Fin (round2 q)
  | NaN => NaN
  end.

Definition compute_score (row : impact_row) : pyfloat :=
  let s := Fin 0%Qc in
  let s :=
    if (0 <? before_count row)%nat then
      let ratio :=
        (Qc_of_Z (Z.of_nat (before_count row) - Z.of_nat (after_count row))
         / Qc_of_nat (before_count row))%Qc in
      fadd s (Fin (ratio * Qc_of_Z 50)%Qc)
    else s in
  let s :=
    match before_avg row, after_avg row with
    | CFloat b, CFloat a => fadd s (fmul (fsub a b) (Fin (Qc_of_Z 10)))
    | _, _ => s
    end in
  fround2 (pymax s (Fin 0%Qc)).

(** The page from the partition on: [None] is the "not enough reviews"
    stop; otherwise the rows of [impact_df] with their [impact_score]. *)
Definition impact_analysis (df : list row) (update_date : Z) (changes : list pystr)
  : option (list (impact_row * pyfloat)) :=
  let before_df := before_part df update_date in
  let after_df := after_part df update_date in
  match before_df, after_df with
  | [], _ | _, [] => None
  | _, _ =>
    Some (map (fun row => (row, compute_score row))
              (impact_df (results before_df after_df changes)))
  end.








(** Two reviews around the update date 3: "login" is mentioned only after
    the update, "lag" on both sides. *)
Definition reviews_example : list row :=
  [ {| at_time := 1; score := 2; content := Some (py "Lag is bad") |};
    {| at_time := 5; score := 4; content := Some (py "login works, lag gone") |} ].

Definition changes_example : list pystr := [py "login fix"; py "LAG fix"].

End Impact.

(** ** [str()] of a cell *)

Section Str.

(** [str(x)] for a number. *)
Variable repr_num : Qc -> pystr.

Definition str_of (x : scalar) : pystr :=
  match x with
  | SStr s => s
  | SNone => py "None"
  | SNaN => py "nan"
  | SNum q => repr_num q
  end.

End Str.

(** ** Sentiment labels of the Overview page *)

Module Sentiment.

(** [classify_sentiment_fallback], on the integer score. *)
Definition classify_sentiment_fallback (score : Z) : pystr :=
  if (4 <=? score)%Z then py "Positive"
  else if (score =? 3)%Z then py "Neutral"
  else py "Negative".

Section MapSentiment.

Variable repr_num : Qc -> pystr.

(** [map_sentiment] *)
Definition map_sentiment (s : scalar) : pystr :=
  let s := strip (str_of repr_num s) in
  if str_eqb s (py "긍정") then py "Positive"
  else if str_eqb s (py "부정") then py "Negative"
  else py "Neutral".

(** The [sentiment_label] column: from the [sentiment] column when the
    frame has one, else the existing [sentiment_label] column, else from
    the scores. A column the frame lacks is [None]. *)
Definition sentiment_labels (sentiment : option (list scalar))
           (sentiment_label : option (list pystr)) (scores : list Z) : list pystr :=
  match sentiment with
  | Some col => map map_sentiment col
  | None =>
    match sentiment_label with
    | Some col => col
    | None => map classify_sentiment_fallback scores
    end
  end.

End MapSentiment.

(** [get_numeric_sentiment] *)
Definition get_numeric_sentiment (label : pystr) : Z :=
  if str_eqb label (py "Positive") then 100%Z
  else if str_eqb label (py "Negative") then 0%Z
  else 50%Z.

(** [avg_senti = df["sentiment_score_val"].mean()] *)
Definition avg_senti (labels : list pystr) : pyfloat :=
  mean (map (fun label => Qc_of_Z (get_numeric_sentiment label)) labels).

End Sentiment.

(** ** Topics and primary keywords of the treemap *)

Module Topics.

(** The tokens of the comma-split: brackets and quotes removed, split on
    commas, trimmed, empty tokens dropped. *)
Definition split_tokens (val : pystr) : list pystr :=
  let cleaned :=
    remove_char ch_dquote
      (remove_char ch_squote
         (remove_char ch_rbracket (remove_char ch_lbracket val))) in
  filter (fun x => negb (str_eqb x []))
         (map strip (split_on ch_comma cleaned)).

(** A token as the comma-split leaves it: not empty, no blank at either
    end, no comma, bracket or quote. *)
Definition tidy (k : pystr) : bool :=
  ListField.starts_nonblank k && ListField.starts_nonblank (rev k)
  && forallb (fun c => negb (ListField.structural c)) k.

Section CleanTopic.

Variable repr_num : Qc -> pystr.

(** [clean_topic] *)
Definition clean_topic (val : scalar) : pystr :=
  if is_na val then py "Etc"
  else
    let s_val := strip (str_of repr_num val) in
    if str_eqb s_val [] || str_eqb s_val (py "[]") then py "Etc"
    else if ListField.bracketed s_val then
      match split_tokens s_val with
      | item :: _ => item
      | [] => py "Etc"
      end
    else s_val.

End CleanTopic.

(** What [get_first_kw_robust] does: a keyword, the exception of the
    parser, or the [TypeError] of indexing a value that is not a
    sequence. *)
Inductive kw_outcome :=
| Keyword (k : scalar)
| KwRaises (e : pyexn)
| KwTypeError.

(** The truth value of a scalar in [l[0] if l else "Etc"]. *)
Definition is_truthy (x : scalar) : bool :=
  match x with
  | SNone => false
  | SNaN => true
  | SNum q => negb (bool_decide (q = 0%Qc))
  | SStr s => negb (str_eqb s [])
  end.

(** [get_first_kw_robust] *)
Definition get_first_kw_robust (literal_eval : pystr -> option pyval)
           (val : pyval) : kw_outcome :=
  match ListField.robust_eval_list literal_eval val with
  | Raises e => KwRaises e
  | Returns (PyList []) => Keyword (SStr (py "Etc"))
  | Returns (PyList (k :: _)) => Keyword k
  | Returns (Atom x) =>
    if is_truthy x then
      match x with
      | SStr (c :: _) => Keyword (SStr [c])
      | _ => KwTypeError
      end
    else Keyword (SStr (py "Etc"))
  end.

(** A row of the frame as the treemap reads it: the label, the cleaned
    topic and the primary keyword, all strings. *)
Record topic_row := {
  t_label : pystr;
  t_topic : pystr;
  t_keyword : pystr
}.

Definition generic_terms : list pystr :=
  [py "Etc"; py "Unknown"; py "None"; py "nan"; []].

(** The order of the group keys (topic, keyword). *)
Definition pair_ltb (a b : pystr * pystr) : bool :=
  Versions.str_ltb (fst a) (fst b)
  || (str_eqb (fst a) (fst b) && Versions.str_ltb (snd a) (snd b)).

Definition group_key (r : topic_row) : pystr * pystr := (t_topic r, t_keyword r).

(** The rows [plot_full_width_treemap] groups: the chosen sentiment, topics
    that are not generic. *)
Definition valid_rows (sent_label : pystr) (df : list topic_row) : list topic_row :=
  filter (fun r => negb (bool_decide (t_topic r ∈ generic_terms)))
         (filter (fun r => str_eqb (t_label r) sent_label) df).

(** [tree_data]: one row per (topic, keyword) pair with its size, pairs
    seen at most twice dropped. The empty list is the case in which the
    function shows a notice and draws nothing. *)
Definition tree_data (sent_label : pystr) (df : list topic_row)
  : list (pystr * pystr * nat) :=
  let t_subset := valid_rows sent_label df in
  let keys := sorted_by pair_ltb id (unique (map group_key t_subset)) in
  let sized :=
    map (fun k => (k, length (filter (fun r => bool_decide (group_key r = k)) t_subset)))
        keys in
  filter (fun row => (2 <? snd row)%nat) sized.

End Topics.

(** ** Keyword frequencies of the Overview page *)

Module KeywordFreq.

Definition STOP_KEYWORDS : list pystr :=
  [ py "재미"; py "게임"; py "Good"; py "Play"; py "하는"; py "할"; py "함";
    py "전투"; py "유저"; py "사람"; py "것"; py "수"; py "저"; py "제" ].

(** [x in STOP_KEYWORDS] for a cell. *)
Definition is_stop (k : scalar) : bool :=
  match k with
  | SStr s => bool_decide (s ∈ STOP_KEYWORDS)
  | _ => false
  end.

(** The keyword frame after [normalize_kw_display] and the stop filter. *)
Definition display_rows {L : Type} (kw_df : list (L * scalar)) : list (L * scalar) :=
  filter (fun row => negb (is_stop (snd row)))
         (map (fun row => (fst row, Keywords.normalize_kw_display (snd row))) kw_df).

(** [top_k] of [plot_top_keywords]: the ten most frequent keywords of one
    sentiment with their counts. *)
Definition top_keywords (sent_filter : pystr) (kw_df : list (pystr * scalar))
  : list (scalar * nat) :=
  let subset := filter (fun row => str_eqb (fst row) sent_filter) kw_df in
  firstn 10 (value_counts (filter (fun k => negb (is_na k)) (map snd subset))).

End KeywordFreq.

(** ** Cluster labels *)

Module ClusterLabel.



(** The impact of [x] is a number and at least the impact of [y]. *)
Definition impact_ge (x y : Clusters.stats_row) : Prop :=
  exists p q, Clusters.impact_score x = Fin p /\ Clusters.impact_score y = Fin q
              /\ (q ≤ p)%Qc.

(** Three reviews: two of the cluster N-1 and one unclustered. *)
Definition reviews_example : list Clusters.review :=
  [ {| Clusters.reviewId := SStr (py "r1"); Clusters.cluster := py "N-1";
       Clusters.intensity := Qc_of_Z 4; Clusters.score := 1;
       Clusters.sentiment_label := py "Negative";
       Clusters.categories := SStr (py "bug");
       Clusters.keywords := Some (py "['lag', 'login']") |};
    {| Clusters.reviewId := SStr (py "r2"); Clusters.cluster := py "-1";
       Clusters.intensity := Qc_of_Z 1; Clusters.score := 5;
       Clusters.sentiment_label := py "Positive";
       Clusters.categories := SNaN;
       Clusters.keywords := None |};
    {| Clusters.reviewId := SStr (py "r3"); Clusters.cluster := py "N-1";
       Clusters.intensity := Qc_of_Z 2; Clusters.score := 2;
       Clusters.sentiment_label := py "Negative";
       Clusters.categories := SStr (py "bug");
       Clusters.keywords := Some (py "lag") |} ].

End ClusterLabel.

(** ** Release notes of the Update Impact Checker *)

Module Release.

Definition ch_newline : N := 10.

(** [changes]: the trimmed non-empty lines of the release text. *)
Definition changes_of (release_text : pystr) : list pystr :=
  filter (fun line => negb (str_eqb line []))
         (map strip (split_on ch_newline release_text)).

(** The page continues only when [release_text.strip()] is not empty. *)
Definition has_text (release_text : pystr) : bool :=
  negb (str_eqb (strip release_text) []).




End Release.

(** ** Sentiment trend by version *)

Module Trend.

(** A review of the trend view: the row of [Versions] with its
    [sentiment_label]. *)
Definition trend_review : Type := Versions.trend_row * pystr.

(** The rows [groupby(["appVersion", "sentiment_label"])] keeps: a missing
    version drops the row. *)
Definition grouped (df : list trend_review) : list (pystr * pystr) :=
  omap (fun r => match Versions.appVersion (fst r) with
                 | Some v => Some (v, snd r)
                 | None => None
                 end) df.

(** [.size()] of one group, 0 where [unstack(fill_value=0)] fills. *)
Definition size_of (g : list (pystr * pystr)) (v label : pystr) : nat :=
  length (filter (fun p => bool_decide (p = (v, label))) g).

(** A row of [trend_df] with the three columns the chart reads. *)
Record entry := {
  e_version : pystr;
  e_negative : nat;
  e_neutral : nat;
  e_positive : nat;
  e_total : nat
}.

Definition entry_of (g : list (pystr * pystr)) (v : pystr) : entry :=
  let neg := size_of g v (py "Negative") in
  let neu := size_of g v (py "Neutral") in
  let pos := size_of g v (py "Positive") in
  {| e_version := v; e_negative := neg; e_neutral := neu; e_positive := pos;
     e_total := (neg + neu + pos)%nat |}.

(** The code of a value in [pd.Categorical(..., categories=cats)]: its
    position; a value outside the categories sorts last. *)
Fixpoint cat_code (cats : list pystr) (v : pystr) : nat :=
  match cats with
  | [] => 0%nat
  | c :: cats' => if bool_decide (c = v) then 0%nat else S (cat_code cats' v)
  end.

(** [trend_df] of the version branch. [None] is the [KeyError] of
    [trend_df[["Negative", "Neutral", "Positive"]]] when one of the three
    labels is no column of the unstacked frame. *)
Definition trend_table (df : list trend_review) : option (list entry) :=
  let ver_order := Versions.ver_order (map fst df) in
  let g := grouped df in
  let columns := unique (map snd g) in
  if forallb (fun c => bool_decide (c ∈ columns))
             [py "Negative"; py "Neutral"; py "Positive"]
  then
    let index := sorted_by Versions.str_ltb id (unique (map fst g)) in
    let rows := filter (fun e => (10 <? e_total e)%nat) (map (entry_of g) index) in
    Some (sorted_by Nat.ltb (fun e => cat_code ver_order (e_version e)) rows)
  else None.

(** Twelve reviews of version 2.0 and eleven of version 1.0, the three
    labels all present; one review without a version. *)
Definition trend_example : list trend_review :=
  repeat ({| Versions.appVersion := Some (py "2.0"); Versions.at_time := 1 |},
          py "Negative") 11
  ++ [ ({| Versions.appVersion := Some (py "2.0"); Versions.at_time := 2 |},
        py "Neutral");
       ({| Versions.appVersion := None; Versions.at_time := 2 |}, py "Positive") ]
  ++ repeat ({| Versions.appVersion := Some (py "1.0"); Versions.at_time := 3 |},
             py "Positive") 11.

End Trend.

(** * Properties *)

(** ** Strings *)

Lemma lstrip_idemp (s : pystr) : lstrip (lstrip s) = lstrip s.
Proof.
  induction s as [|c s IH]; simpl; [done|].
  destruct (is_space c) eqn:E; [done|]. simpl. by rewrite E.
Qed.

Lemma lstrip_snoc (s : pystr) (c : N) :
  is_space c = false -> lstrip (s ++ [c]) = lstrip s ++ [c].
Proof.
  intros Hc. induction s as [|d s IH]; simpl.
  - by rewrite Hc.
  - destruct (is_space d); [exact IH | done].
Qed.

Lemma rstrip_cons (c : N) (s : pystr) :
  is_space c = false -> rstrip (c :: s) = c :: rstrip s.
Proof.
  intros Hc. unfold rstrip. simpl.
  rewrite lstrip_snoc by done. by rewrite rev_unit.
Qed.

Lemma rstrip_idemp (s : pystr) : rstrip (rstrip s) = rstrip s.
Proof. unfold rstrip. by rewrite rev_involutive, lstrip_idemp. Qed.

Lemma lstrip_head (s : pystr) :
  lstrip s = [] \/ exists c t, lstrip s = c :: t /\ is_space c = false.
Proof.
  induction s as [|c s IH]; simpl; [by left|].
  destruct (is_space c) eqn:E; [exact IH|]. right. by exists c, s.
Qed.

Lemma strip_idemp (s : pystr) : strip (strip s) = strip s.
Proof.
  unfold strip. destruct (lstrip_head s) as [-> | (c & t & -> & Hc)].
  - reflexivity.
  - rewrite (rstrip_cons c t Hc). simpl. rewrite Hc.
    rewrite <- (rstrip_cons c t Hc). apply rstrip_idemp.
Qed.

Lemma startswith_spec (p s : pystr) :
  startswith p s = true <-> exists rest, s = p ++ rest.
Proof.
  revert s. induction p as [|a p IH]; intros s; simpl.
  - split; [intros _; by exists s | done].
  - destruct s as [|b s].
    + split; [done | intros [rest Hrest]; discriminate].
    + rewrite andb_true_iff, N.eqb_eq, IH. split.
      * intros [-> [rest ->]]. by exists rest.
      * intros [rest Hrest]. injection Hrest as -> ->. split; [done | by exists rest].
Qed.

(** ** Keyword consolidation *)

Lemma map_dict_values_fixed (k v : pystr) :
  Keywords.map_dict !! k = Some v -> Keywords.fixed_token v = true.
Proof.
  intros Hk. apply elem_of_list_to_map_2 in Hk. apply list_elem_of_In in Hk.
  assert (Hall : forallb (fun kv => Keywords.fixed_token (snd kv))
                         Keywords.map_entries = true) by (vm_compute; reflexivity).
  rewrite forallb_forall in Hall. exact (Hall (k, v) Hk).
Qed.

Lemma fixed_token_normalize (v : pystr) :
  Keywords.fixed_token v = true ->
  Keywords.normalize_kw_display (SStr v) = SStr v.
Proof.
  unfold Keywords.fixed_token, Keywords.normalize_kw_display, str_eqb.
  intros H. apply andb_true_iff in H as [Hs H].
  apply bool_decide_eq_true in Hs. rewrite Hs.
  destruct (Keywords.map_dict !! v) as [w|].
  - apply bool_decide_eq_true in H. by subst.
  - destruct (Keywords.map_dict !! remove_char ch_space v) as [w|]; [|done].
    apply bool_decide_eq_true in H. by subst.
Qed.

Lemma normalize_output_fixed (t : pystr) :
  exists s, Keywords.normalize_kw_display (SStr t) = SStr s
            /\ Keywords.fixed_token s = true.
Proof.
  unfold Keywords.normalize_kw_display.
  destruct (Keywords.map_dict !! strip t) as [v|] eqn:E1.
  - exists v. split; [done | by eapply map_dict_values_fixed].
  - destruct (Keywords.map_dict !! remove_char ch_space (strip t)) as [v|] eqn:E2.
    + exists v. split; [done | by eapply map_dict_values_fixed].
    + exists (strip t). split; [done|].
      unfold Keywords.fixed_token, str_eqb.
      rewrite strip_idemp, E1, E2. by rewrite bool_decide_eq_true_2.
Qed.

(** C5. Consolidation is idempotent: normalizing a token twice gives what
    normalizing it once gives; every string it returns, whether taken from
    the synonym table or passed through, is a fixed point of the lookup
    that tries the trimmed token first and the blank-free token second. *)
Theorem normalize_kw_display_idempotent :
  (forall x : scalar,
      Keywords.normalize_kw_display (Keywords.normalize_kw_display x)
      = Keywords.normalize_kw_display x)
  /\ (forall t : pystr,
         exists s, Keywords.normalize_kw_display (SStr t) = SStr s
                   /\ Keywords.fixed_token s = true).
Proof.
  split; [|exact normalize_output_fixed].
  intros [| |q|t]; try reflexivity.
  destruct (normalize_output_fixed t) as (s & -> & Hs).
  by apply fixed_token_normalize.
Qed.

(** ** Sorting by key *)

Section SortingFacts.

Context {A K : Type} (ltb : K -> K -> bool) (key : A -> K).

Hypothesis ltb_asym : forall a b, ltb a b = true -> ltb b a = false.

Lemma insert_by_perm (x : A) (l : list A) :
  Permutation (insert_by ltb key x l) (x :: l).
Proof.
  induction l as [|y l IH]; simpl; [done|].
  destruct (ltb (key y) (key x)); [|done].
  rewrite IH. apply perm_swap.
Qed.

Lemma sorted_by_perm (l : list A) : Permutation (sorted_by ltb key l) l.
Proof.
  induction l as [|x l IH]; simpl; [done|].
  unfold sorted_by in *. simpl. rewrite insert_by_perm. by constructor.
Qed.

Lemma insert_by_hd (y x : A) (l : list A) :
  key_le ltb key y x -> HdRel (key_le ltb key) y l -> HdRel (key_le ltb key) y (insert_by ltb key x l).
Proof.
  intros Hyx Hl. destruct l as [|z l]; simpl; [by constructor|].
  destruct (ltb (key z) (key x)); constructor; [|done].
  by inversion Hl.
Qed.

Lemma insert_by_sorted (x : A) (l : list A) :
  Sorted (key_le ltb key) l -> Sorted (key_le ltb key) (insert_by ltb key x l).
Proof.
  induction 1 as [|y l Hs IH Hhd]; simpl.
  - by repeat constructor.
  - destruct (ltb (key y) (key x)) eqn:E.
    + constructor; [exact IH|]. apply insert_by_hd; [|done].
      unfold key_le. by apply ltb_asym.
    + constructor; [by constructor|]. by constructor.
Qed.

Lemma sorted_by_sorted (l : list A) : Sorted (key_le ltb key) (sorted_by ltb key l).
Proof.
  induction l as [|x l IH]; [constructor|].
  unfold sorted_by in *. simpl. by apply insert_by_sorted.
Qed.

Lemma sorted_by_In (x : A) (l : list A) : In x (sorted_by ltb key l) <-> In x l.
Proof.
  split; apply Permutation_in; [|symmetry]; apply sorted_by_perm.
Qed.

End SortingFacts.

Lemma unique_In {A : Type} `{EqDecision A} (x : A) (l : list A) :
  In x (unique l) <-> In x l.
Proof.
  induction l as [|y l IH]; simpl; [done|].
  rewrite <- IH, <- !list_elem_of_In, list_elem_of_filter, !list_elem_of_In.
  destruct (decide (x = y)) as [->|Hne]; [tauto|].
  rewrite negb_True, bool_decide_spec. split.
  - intros [->|[_ H']]; [done | by right].
  - intros [->|H']; [done | by right].
Qed.

(** ** Version parsing and ordering *)

Lemma tuple_ltb_asym (a b : list N) :
  Versions.tuple_ltb a b = true -> Versions.tuple_ltb b a = false.
Proof.
  revert b. induction a as [|x a IH]; intros [|y b]; simpl; try done.
  intros H. apply orb_true_iff in H as [H|H].
  - apply N.ltb_lt in H. apply orb_false_iff. split.
    + apply N.ltb_ge. lia.
    + apply andb_false_iff. left. apply N.eqb_neq. lia.
  - apply andb_true_iff in H as [H1 H2]. apply N.eqb_eq in H1. subst y.
    rewrite N.ltb_irrefl, N.eqb_refl. simpl. by apply IH.
Qed.
















(** ** Cluster aggregation *)

Lemma fleb_at_most (x : pyfloat) (q : Qc) : fleb x (Fin q) = true <-> at_most x q.
Proof.
  unfold at_most. destruct x as [v|]; simpl.
  - rewrite bool_decide_eq_true. split.
    + intros H. by exists v.
    + intros (w & [= ->] & H). exact H.
  - split; [done | intros (w & Hw & _); discriminate].
Qed.

Lemma startswith_has_prefix (p s : pystr) : startswith p s = true <-> has_prefix p s.
Proof. apply startswith_spec. Qed.

(** C3. A cluster id that begins with ["N-"] is Negative (Risk), one that
    begins with ["P-"] is Positive (Strength); for every other id the row
    is Negative (Risk) exactly when its average score is at most 3.2, and
    Positive (Strength) otherwise. *)
Theorem determine_group_type_spec (row : Clusters.stats_row) :
  (has_prefix (py "N-") (Clusters.row_cluster row) ->
   Clusters.determine_group_type row = Clusters.NegativeRisk)
  /\ (has_prefix (py "P-") (Clusters.row_cluster row) ->
      Clusters.determine_group_type row = Clusters.PositiveStrength)
  /\ (~ has_prefix (py "N-") (Clusters.row_cluster row) ->
      ~ has_prefix (py "P-") (Clusters.row_cluster row) ->
      (Clusters.determine_group_type row = Clusters.NegativeRisk
       <-> at_most (Clusters.avg_score row) (Q2Qc (16 # 5)))
      /\ (Clusters.determine_group_type row = Clusters.PositiveStrength
          <-> ~ at_most (Clusters.avg_score row) (Q2Qc (16 # 5)))).
Proof.
  unfold Clusters.determine_group_type.
  rewrite <- !startswith_has_prefix, <- fleb_at_most.
  fold Clusters.RISK_THRESHOLD.
  destruct (startswith (py "N-") _) eqn:EN.
  - split; [done|]. split; [|done].
    intros HP. exfalso.
    apply startswith_spec in EN as [r1 E1]. apply startswith_spec in HP as [r2 E2].
    rewrite E1 in E2. discriminate.
  - split; [done|].
    destruct (startswith (py "P-") _) eqn:EP; [by split|].
    split; [done|]. intros _ _.
    destruct (fleb _ _); split; split; done.
Qed.

Lemma determine_group_type_spec_witness :
  Clusters.determine_group_type (Clusters.row_example (py "N-1") (Qc_of_Z 5))
  = Clusters.NegativeRisk
  /\ Clusters.determine_group_type (Clusters.row_example (py "P-2") (Qc_of_Z 1))
     = Clusters.PositiveStrength
  /\ Clusters.determine_group_type (Clusters.row_example (py "7") (Q2Qc (16 # 5)))
     = Clusters.NegativeRisk
  /\ Clusters.determine_group_type (Clusters.row_example (py "7") (Q2Qc (33 # 10)))
     = Clusters.PositiveStrength.
Proof.
  split; [|split; [|split]].
  - destruct (determine_group_type_spec
                (Clusters.row_example (py "N-1") (Qc_of_Z 5))) as (H & _ & _).
    apply H. exists (py "1"). reflexivity.
  - destruct (determine_group_type_spec
                (Clusters.row_example (py "P-2") (Qc_of_Z 1))) as (_ & H & _).
    apply H. exists (py "2"). reflexivity.
  - destruct (determine_group_type_spec
                (Clusters.row_example (py "7") (Q2Qc (16 # 5)))) as (_ & _ & H).
    apply H.
    + intros [rest E]. vm_compute in E. discriminate.
    + intros [rest E]. vm_compute in E. discriminate.
    + exists (Q2Qc (16 # 5)). split; [reflexivity | vm_compute; discriminate].
  - destruct (determine_group_type_spec
                (Clusters.row_example (py "7") (Q2Qc (33 # 10)))) as (_ & _ & H).
    apply H.
    + intros [rest E]. vm_compute in E. discriminate.
    + intros [rest E]. vm_compute in E. discriminate.
    + intros (v & Hv & Hle). injection Hv as <-. vm_compute in Hle. by apply Hle.
Defined.

Lemma drop_noise_In (r : Clusters.review) (df : list Clusters.review) :
  In r (Clusters.drop_noise df) <-> In r df /\ Clusters.cluster r <> Clusters.SENTINEL.
Proof.
  unfold Clusters.drop_noise, str_eqb.
  rewrite <- !list_elem_of_In, list_elem_of_filter, negb_True, bool_decide_spec.
  tauto.
Qed.

Lemma drop_noise_idemp (df : list Clusters.review) :
  Clusters.drop_noise (Clusters.drop_noise df) = Clusters.drop_noise df.
Proof.
  unfold Clusters.drop_noise. induction df as [|r df IH]; [done|].
  rewrite filter_cons. destruct (decide _) as [H|H]; [|exact IH].
  rewrite filter_cons. destruct (decide _); [|done]. by rewrite IH.
Qed.

Lemma base_stats_In (row : Clusters.stats_row) (df : list Clusters.review) :
  In row (Clusters.base_stats df) ->
  row = Clusters.aggregate (Clusters.drop_noise df) (Clusters.row_cluster row)
  /\ exists r, In r df /\ Clusters.cluster r = Clusters.row_cluster row
               /\ Clusters.cluster r <> Clusters.SENTINEL.
Proof.
  unfold Clusters.base_stats. rewrite in_map_iff.
  intros (cid & <- & Hcid). split; [reflexivity|].
  apply sorted_by_In, unique_In, in_map_iff in Hcid as (r & <- & Hr).
  apply drop_noise_In in Hr as [Hr Hne]. by exists r.
Qed.

Lemma top5_In (g : Clusters.group) (row : Clusters.stats_row)
      (stats : list Clusters.stats_row) :
  In row (Clusters.top5 g stats) -> In row stats.
Proof.
  unfold Clusters.top5. intros H.
  apply list_elem_of_In, (subseteq_take 5), list_elem_of_In, sorted_by_In in H.
  apply list_elem_of_In, list_elem_of_filter in H as [_ H].
  by apply list_elem_of_In.
Qed.

Lemma cluster_info_fold (le : pystr -> option pyval) (df : list Clusters.review)
      (ids : list pystr) (info : gmap pystr (list scalar)) :
  info !! Clusters.SENTINEL = None ->
  fold_left
    (fun info cid =>
       if str_eqb cid Clusters.SENTINEL then info
       else <[cid := Clusters.cluster_keywords le df cid]> info)
    ids info !! Clusters.SENTINEL = None.
Proof.
  revert info. induction ids as [|cid ids IH]; intros info Hinfo; simpl; [done|].
  apply IH. unfold str_eqb. case_bool_decide as Hc; [done|].
  by rewrite lookup_insert_ne.
Qed.

(** C4. For every record set the cluster aggregates, the rows selected for
    display and the keyword-info dict hold no entry for the cluster id
    ["-1"]; every aggregate row is computed from the records left after the
    sentinel records are removed, so the result is the one obtained from
    the input without them. *)
Theorem sentinel_cluster_excluded
        (literal_eval : pystr -> option pyval) (df : list Clusters.review) :
  Forall (fun row => Clusters.row_cluster row <> py "-1") (Clusters.base_stats df)
  /\ Forall (fun row => Clusters.row_cluster row <> py "-1") (Clusters.cluster_stats df)
  /\ Clusters.cluster_info literal_eval df !! py "-1" = None
  /\ Forall (fun row =>
               row = Clusters.aggregate (Clusters.drop_noise df)
                                        (Clusters.row_cluster row))
            (Clusters.base_stats df)
  /\ Forall (fun r => Clusters.cluster r <> py "-1") (Clusters.drop_noise df)
  /\ Clusters.base_stats df = Clusters.base_stats (Clusters.drop_noise df).
Proof.
  fold Clusters.SENTINEL.
  assert (Hbase : forall row, In row (Clusters.base_stats df) ->
                              Clusters.row_cluster row <> Clusters.SENTINEL).
  { intros row H. apply base_stats_In in H as (_ & r & _ & <- & Hne). exact Hne. }
  repeat split.
  - apply Forall_forall. intros row H. by apply Hbase, list_elem_of_In.
  - apply Forall_forall. intros row H. apply Hbase.
    apply list_elem_of_In in H.
    unfold Clusters.cluster_stats in H. apply in_app_or in H as [H|H];
      by apply top5_In in H.
  - unfold Clusters.cluster_info. by apply cluster_info_fold.
  - apply Forall_forall. intros row H.
    apply list_elem_of_In in H. by apply base_stats_In in H as [H _].
  - apply Forall_forall. intros r H.
    apply list_elem_of_In in H. by apply drop_noise_In in H as [_ H].
  - unfold Clusters.base_stats. by rewrite drop_noise_idemp.
Qed.

(** ** Score coercion *)

Section ScoreFacts.

Variable parse_number : pystr -> option Qc.








Lemma checker_drops_row (df : list Scores.raw_row) (row : Scores.row) :
  In row (Scores.checker_frame parse_number df) ->
  exists r q, In r df /\ Scores.to_numeric parse_number (Scores.raw_score r) = Fin q
              /\ Scores.score row = Scores.trunc q.
Proof.
  intros H. apply list_elem_of_In in H. unfold Scores.checker_frame in H.
  apply list_elem_of_omap in H as (r & Hr & H).
  destruct (Scores.raw_at r); [|done].
  destruct (Scores.to_numeric parse_number (Scores.raw_score r)) as [q|] eqn:E; [|done].
  injection H as <-. exists r, q. by rewrite <- list_elem_of_In.
Qed.

End ScoreFacts.




(** ** Improvement score *)





(** A NaN average passes the [is not None] guard and turns the score into
    NaN, whatever the counts are. *)
Lemma compute_score_nan_average (row : Impact.impact_row) (x : pyfloat) :
  Impact.before_avg row = Impact.CFloat NaN ->
  Impact.after_avg row = Impact.CFloat x ->
  Impact.compute_score row = NaN.
Proof.
  intros Hb Ha. unfold Impact.compute_score. rewrite Hb, Ha.
  destruct (0 <? Impact.before_count row)%nat, x; reflexivity.
Qed.

(** In a column that holds a number, a missing average becomes NaN. *)
Lemma to_column_mixed (vals : list (option Qc)) (i : nat) :
  (exists q, In (Some q) vals) ->
  vals !! i = Some None ->
  Impact.to_column vals !! i = Some (Impact.CFloat NaN).
Proof.
  intros [q Hq] Hi. unfold Impact.to_column.
  destruct (forallb _ vals) eqn:E.
  - rewrite forallb_forall in E. specialize (E _ Hq).
    by apply bool_decide_eq_true in E.
  - by rewrite list_lookup_fmap, Hi.
Qed.

(** C10 fails on the code. With the changes "login fix" and "LAG fix",
    "login" matches no review before the update; the other change has a
    before-average, so the column is numeric and the missing average of
    "login fix" reaches [compute_score] as NaN, not [None]: the score is
    NaN. Alone, the same change scores 0. *)
Theorem zero_before_match_scores_nan :
  (exists row rest,
      Impact.impact_analysis Impact.reviews_example 3 Impact.changes_example
      = Some ((row, NaN) :: rest)
      /\ Impact.change row = py "login fix"
      /\ Impact.before_count row = 0%nat
      /\ Impact.before_avg row = Impact.CFloat NaN)
  /\ (exists row q,
         Impact.impact_analysis Impact.reviews_example 3 [py "login fix"]
         = Some [(row, Fin q)]
         /\ q = 0%Qc
         /\ Impact.before_count row = 0%nat
         /\ Impact.before_avg row = Impact.CNone).
Proof.
  split.
  - remember (Impact.impact_analysis Impact.reviews_example 3
                                     Impact.changes_example) as r eqn:E.
    vm_compute in E. subst r. eexists _, _. split; [reflexivity|].
    repeat split.
  - remember (Impact.impact_analysis Impact.reviews_example 3
                                     [py "login fix"]) as r eqn:E.
    vm_compute in E. subst r. eexists _, _. split; [reflexivity|].
    split; [by apply Qc_is_canon|]. by split.
Qed.

(** ** The list-field parser *)

Lemma strip_nonblank (s : pystr) :
  ListField.starts_nonblank s = true ->
  ListField.starts_nonblank (rev s) = true ->
  strip s = s.
Proof.
  intros H1 H2. unfold strip, rstrip.
  assert (Hl : forall t, ListField.starts_nonblank t = true -> lstrip t = t).
  { intros [|c t]; simpl; [done|]. by destruct (is_space c). }
  rewrite (Hl s H1), (Hl (rev s) H2). apply rev_involutive.
Qed.

Lemma starts_nonblank_app (s t : pystr) :
  ListField.starts_nonblank s = true -> ListField.starts_nonblank (s ++ t) = true.
Proof. by destruct s. Qed.

Lemma remove_char_id (c : N) (s : pystr) :
  forallb (fun d => negb (d =? c)) s = true -> remove_char c s = s.
Proof.
  unfold remove_char. induction s as [|d s IH]; [done|].
  intros H. cbn [forallb] in H. apply andb_true_iff in H as [Hd Hs].
  rewrite filter_cons_True by (by rewrite Hd). by rewrite IH.
Qed.

Lemma split_on_no_sep (c : N) (s : pystr) :
  forallb (fun d => negb (d =? c)) s = true -> split_on c s = [s].
Proof.
  induction s as [|d s IH]; simpl; [done|].
  intros H. apply andb_true_iff in H as [Hd Hs].
  apply negb_true_iff in Hd. rewrite Hd, (IH Hs). reflexivity.
Qed.

Lemma split_on_app (c : N) (s rest : pystr) :
  forallb (fun d => negb (d =? c)) s = true ->
  split_on c (s ++ c :: rest) = s :: split_on c rest.
Proof.
  induction s as [|d s IH]; simpl.
  - intros _. by rewrite N.eqb_refl.
  - intros H. apply andb_true_iff in H as [Hd Hs].
    apply negb_true_iff in Hd. rewrite Hd, (IH Hs). reflexivity.
Qed.

Lemma forallb_app_iff {A : Type} (p : A -> bool) (l1 l2 : list A) :
  forallb p (l1 ++ l2) = true <-> forallb p l1 = true /\ forallb p l2 = true.
Proof. rewrite forallb_app. apply andb_true_iff. Qed.

Lemma split_on_join (c : N) (pad pre k : pystr) (ks : list pystr) :
  forallb (fun d => negb (d =? c)) pad = true ->
  forallb (fun d => negb (d =? c)) pre = true ->
  Forall (fun k => forallb (fun d => negb (d =? c)) k = true) (k :: ks) ->
  split_on c (pre ++ join (c :: pad) (k :: ks))
  = (pre ++ k) :: map (fun k' => pad ++ k') ks.
Proof.
  intros Hpad. revert pre k. induction ks as [|k' ks IH]; intros pre k Hpre Hks.
  - simpl. apply split_on_no_sep. apply forallb_app_iff. split; [done|].
    by inversion Hks.
  - change (join (c :: pad) (k :: k' :: ks))
      with (k ++ (c :: pad) ++ join (c :: pad) (k' :: ks)).
    inversion Hks as [|? ? Hk Hks']; subst.
    replace (pre ++ k ++ (c :: pad) ++ join (c :: pad) (k' :: ks))
      with ((pre ++ k) ++ c :: (pad ++ join (c :: pad) (k' :: ks)))
      by (by rewrite <- !app_assoc).
    rewrite split_on_app by (apply forallb_app_iff; by split).
    by rewrite IH.
Qed.

Lemma forallb_impl {A : Type} (p q : A -> bool) (l : list A) :
  (forall x, p x = true -> q x = true) ->
  forallb p l = true -> forallb q l = true.
Proof.
  intros Hpq. induction l as [|x l IH]; simpl; [done|].
  intros H. apply andb_true_iff in H as [Hx Hl]. by rewrite (Hpq x Hx), IH.
Qed.

Lemma structural_cases (c : N) :
  ListField.structural c = false ->
  (c =? ch_comma) = false /\ (c =? ch_lbracket) = false
  /\ (c =? ch_rbracket) = false /\ (c =? ch_squote) = false
  /\ (c =? ch_dquote) = false.
Proof.
  unfold ListField.structural. rewrite !orb_false_iff. tauto.
Qed.

Lemma space_not_structural (c : N) :
  is_space c = true -> ListField.structural c = false.
Proof.
  intros H. unfold ListField.structural.
  repeat (apply orb_false_iff; split); apply N.eqb_neq; intros ->;
    vm_compute in H; discriminate.
Qed.

Lemma lstrip_pad (pad s : pystr) :
  forallb is_space pad = true -> lstrip (pad ++ s) = lstrip s.
Proof.
  induction pad as [|c pad IH]; simpl; [done|].
  intros H. apply andb_true_iff in H as [Hc Hpad]. rewrite Hc. by apply IH.
Qed.

Lemma clean_parts (k : pystr) :
  ListField.clean k = true ->
  ListField.starts_nonblank k = true
  /\ ListField.starts_nonblank (rev k) = true
  /\ forallb ListField.plain_char k = true
  /\ forallb (fun c => negb (ListField.structural c)) k = true.
Proof.
  unfold ListField.clean. rewrite !andb_true_iff. intros [[H1 H2] H3].
  repeat split; try done.
  - revert H3. apply forallb_impl. intros c Hc. by apply andb_true_iff in Hc as [? _].
  - revert H3. apply forallb_impl. intros c Hc. by apply andb_true_iff in Hc as [_ ?].
Qed.

Lemma strip_pad_clean (pad k : pystr) :
  forallb is_space pad = true -> ListField.clean k = true -> strip (pad ++ k) = k.
Proof.
  intros Hpad Hk. apply clean_parts in Hk as (H1 & H2 & _).
  unfold strip. rewrite lstrip_pad by done.
  by apply strip_nonblank.
Qed.

Lemma strip_clean (k : pystr) : ListField.clean k = true -> strip k = k.
Proof. apply (strip_pad_clean [] k). reflexivity. Qed.

Lemma join_cons_cons (sep k k' : pystr) (ks : list pystr) :
  join sep (k :: k' :: ks) = k ++ sep ++ join sep (k' :: ks).
Proof. reflexivity. Qed.

Lemma join_forallb (p : N -> bool) (sep : pystr) (ks : list pystr) :
  forallb p sep = true -> Forall (fun k => forallb p k = true) ks ->
  forallb p (join sep ks) = true.
Proof.
  intros Hsep. induction 1 as [|k ks Hk Hks IH]; [done|].
  destruct ks as [|k' ks]; [done|].
  rewrite join_cons_cons, !forallb_app. by rewrite Hk, Hsep, IH.
Qed.

Lemma join_starts_nonblank (sep k : pystr) (ks : list pystr) :
  ListField.starts_nonblank k = true ->
  ListField.starts_nonblank (join sep (k :: ks)) = true.
Proof.
  intros Hk. destruct ks as [|k' ks]; [done|].
  rewrite join_cons_cons. by apply starts_nonblank_app.
Qed.

Lemma join_ends_nonblank (sep k : pystr) (ks : list pystr) :
  Forall (fun k => ListField.starts_nonblank (rev k) = true) (k :: ks) ->
  ListField.starts_nonblank (rev (join sep (k :: ks))) = true.
Proof.
  revert k. induction ks as [|k' ks IH]; intros k Hks.
  - by inversion Hks.
  - rewrite join_cons_cons, !rev_app_distr, <- app_assoc.
    apply starts_nonblank_app, IH. by inversion Hks.
Qed.

(** What the parser does with a string, in one equation. *)
Lemma robust_eval_list_str (le : pystr -> option pyval) (s : pystr) :
  ListField.robust_eval_list le (Atom (SStr s))
  = Returns
      (if str_eqb (strip s) (py "[]") then PyList []
       else match ListField.try_literal le (strip s) with
            | Some parsed => parsed
            | None => PyList (ListField.split_heuristic (strip s))
            end).
Proof.
  destruct s as [|c s]; [reflexivity|].
  unfold ListField.robust_eval_list. simpl.
  destruct (str_eqb _ _); [done|]. by destruct (ListField.try_literal _ _).
Qed.


Lemma pad_no_char (x : N) (pad : pystr) :
  ListField.structural x = true -> forallb is_space pad = true ->
  forallb (fun d => negb (d =? x)) pad = true.
Proof.
  intros Hx. apply forallb_impl. intros c Hc.
  apply negb_true_iff, N.eqb_neq. intros ->.
  apply space_not_structural in Hc. congruence.
Qed.






(** The reference fragment reads back what [serialized] writes. *)







Lemma robust_eval_list_degrades (le : pystr -> option pyval) (s : pystr) :
  le (strip s) = None ->
  ListField.robust_eval_list le (Atom (SStr s))
  = Returns (PyList (ListField.split_heuristic (strip s))).
Proof.
  intros Hle. rewrite robust_eval_list_str. unfold str_eqb.
  case_bool_decide as He.
  - rewrite He. reflexivity.
  - unfold ListField.try_literal. rewrite Hle. by destruct (ListField.bracketed _).
Qed.





(** A native list of two keywords does not reach [return val]: the truth
    value of the element-wise [pd.isna] answer raises. *)
Lemma native_pair_raises :
  ListField.robust_eval_list ListField.literal_eval_flat
    (ListField.native [py "lag"; py "login"])
  = Raises ValueError.
Proof. reflexivity. Qed.





(** * Further properties *)

(** ** More on trimming and splitting *)

Lemma lstrip_snoc_space (s : pystr) (c : N) :
  is_space c = true ->
  lstrip (s ++ [c]) = match lstrip s with [] => [] | m => m ++ [c] end.
Proof.
  intros Hc. induction s as [|d s IH]; simpl.
  - by rewrite Hc.
  - destruct (is_space d); [exact IH | done].
Qed.

Lemma rstrip_cons_space (c : N) (s : pystr) :
  is_space c = true ->
  rstrip (c :: s) = match rstrip s with [] => [] | r => c :: r end.
Proof.
  intros Hc. unfold rstrip. simpl. rewrite lstrip_snoc_space by done.
  destruct (lstrip (rev s)) as [|d m] eqn:E; [done|].
  rewrite rev_unit. simpl.
  destruct (rev m ++ [d]) eqn:E'; [by destruct (rev m) | done].
Qed.

Lemma strip_comm (s : pystr) : rstrip (lstrip s) = lstrip (rstrip s).
Proof.
  induction s as [|c s IH]; [done|].
  destruct (is_space c) eqn:Hc.
  - rewrite (rstrip_cons_space c s Hc). simpl. rewrite Hc, IH.
    destruct (rstrip s) as [|d r]; [done|]. simpl. by rewrite Hc.
  - rewrite (rstrip_cons c s Hc). simpl. rewrite Hc.
    by rewrite (rstrip_cons c s Hc).
Qed.

Lemma forallb_rev {A : Type} (p : A -> bool) (l : list A) :
  forallb p (rev l) = forallb p l.
Proof.
  induction l as [|x l IH]; [done|].
  simpl. rewrite forallb_app, IH. simpl. by rewrite andb_true_r, andb_comm.
Qed.

Lemma rstrip_pad (s pad : pystr) :
  forallb is_space pad = true -> rstrip (s ++ pad) = rstrip s.
Proof.
  intros Hpad. unfold rstrip. rewrite rev_app_distr, lstrip_pad; [done|].
  by rewrite forallb_rev.
Qed.

Lemma strip_pad_both (pad s pad' : pystr) :
  forallb is_space pad = true -> forallb is_space pad' = true ->
  strip (pad ++ s ++ pad') = strip s.
Proof.
  intros H1 H2. unfold strip.
  rewrite lstrip_pad by done. rewrite !strip_comm. by rewrite rstrip_pad.
Qed.

Lemma forallb_lstrip (p : N -> bool) (s : pystr) :
  forallb p s = true -> forallb p (lstrip s) = true.
Proof.
  induction s as [|c s IH]; simpl; [done|].
  intros H. destruct (is_space c); [|done].
  apply andb_true_iff in H as [_ H]. by apply IH.
Qed.

Lemma forallb_strip (p : N -> bool) (s : pystr) :
  forallb p s = true -> forallb p (strip s) = true.
Proof.
  intros H. unfold strip, rstrip. rewrite forallb_rev.
  apply forallb_lstrip. rewrite forallb_rev. by apply forallb_lstrip.
Qed.

Lemma strip_ends_nonblank (s : pystr) :
  strip s <> [] ->
  ListField.starts_nonblank (strip s) = true
  /\ ListField.starts_nonblank (rev (strip s)) = true.
Proof.
  intros Hne. split.
  - unfold strip in *. destruct (lstrip_head s) as [E | (c & t & E & Hc)];
      rewrite E in *; [done|].
    rewrite (rstrip_cons c t Hc). simpl. by rewrite Hc.
  - unfold strip, rstrip in *. rewrite rev_involutive.
    destruct (lstrip_head (rev (lstrip s))) as [E | (c & t & E & Hc)];
      rewrite E in *; [done|].
    simpl. by rewrite Hc.
Qed.

Lemma split_on_tokens_no_sep (c : N) (s : pystr) :
  Forall (fun t => forallb (fun d => negb (d =? c)) t = true) (split_on c s).
Proof.
  induction s as [|d s IH]; simpl; [by repeat constructor|].
  destruct (d =? c) eqn:E; [by constructor|].
  destruct (split_on c s) as [|tok toks]; [by repeat constructor; simpl; rewrite E|].
  inversion IH; subst. constructor; [|done]. simpl. by rewrite E.
Qed.

Lemma split_on_tokens_forallb (p : N -> bool) (c : N) (s : pystr) :
  forallb p s = true ->
  Forall (fun t => forallb p t = true) (split_on c s).
Proof.
  induction s as [|d s IH]; simpl; [by repeat constructor|].
  intros H. apply andb_true_iff in H as [Hd Hs]. specialize (IH Hs).
  destruct (d =? c); [by constructor|].
  destruct (split_on c s) as [|tok toks]; [by repeat constructor; simpl; rewrite Hd|].
  inversion IH; subst. constructor; [|done]. simpl. by rewrite Hd.
Qed.

Lemma remove_char_none (c : N) (s : pystr) :
  forallb (fun d => negb (d =? c)) (remove_char c s) = true.
Proof.
  unfold remove_char. apply forallb_forall. intros d Hd.
  apply list_elem_of_In, list_elem_of_filter in Hd as [Hd _].
  by apply Is_true_true.
Qed.

Lemma remove_char_forallb (p : N -> bool) (c : N) (s : pystr) :
  forallb p s = true -> forallb p (remove_char c s) = true.
Proof.
  unfold remove_char. rewrite !forallb_forall. intros H d Hd.
  apply list_elem_of_In, list_elem_of_filter in Hd as [_ Hd].
  by apply H, list_elem_of_In.
Qed.

Lemma forallb_and {A : Type} (p q : A -> bool) (l : list A) :
  forallb p l = true -> forallb q l = true ->
  forallb (fun x => p x && q x) l = true.
Proof.
  rewrite !forallb_forall. intros Hp Hq x Hx. by rewrite Hp, Hq.
Qed.

Lemma split_tokens_In (t val : pystr) :
  In t (Topics.split_tokens val) ->
  t <> [] /\ exists x, t = strip x
                       /\ forallb (fun c => negb (ListField.structural c)) x = true.
Proof.
  unfold Topics.split_tokens. intros H.
  apply list_elem_of_In, list_elem_of_filter in H as [Hne H].
  apply list_elem_of_In, in_map_iff in H as (x & <- & Hx).
  split.
  { intros E. rewrite E in Hne. by vm_compute in Hne. }
  exists x. split; [done|].
  set (cleaned := remove_char ch_dquote _) in Hx.
  assert (H1 : forallb (fun d => negb (d =? ch_comma)) x = true).
  { pose proof (split_on_tokens_no_sep ch_comma cleaned) as HF.
    rewrite Forall_forall in HF. by apply HF, list_elem_of_In. }
  assert (Hcl : forall p, forallb p cleaned = true -> forallb p x = true).
  { intros p Hp. pose proof (split_on_tokens_forallb p ch_comma cleaned Hp) as HF.
    rewrite Forall_forall in HF. by apply HF, list_elem_of_In. }
  assert (H2 : forallb (fun d => negb (d =? ch_lbracket)) x = true).
  { apply Hcl. unfold cleaned. do 3 apply remove_char_forallb. apply remove_char_none. }
  assert (H3 : forallb (fun d => negb (d =? ch_rbracket)) x = true).
  { apply Hcl. unfold cleaned. do 2 apply remove_char_forallb. apply remove_char_none. }
  assert (H4 : forallb (fun d => negb (d =? ch_squote)) x = true).
  { apply Hcl. unfold cleaned. apply remove_char_forallb. apply remove_char_none. }
  assert (H5 : forallb (fun d => negb (d =? ch_dquote)) x = true).
  { apply Hcl. unfold cleaned. apply remove_char_none. }
  pose proof (forallb_and _ _ _ H1 (forallb_and _ _ _ H2
               (forallb_and _ _ _ H3 (forallb_and _ _ _ H4 H5)))) as Hall.
  revert Hall. apply forallb_impl. intros c Hc.
  unfold ListField.structural.
  repeat (apply andb_true_iff in Hc as [?%negb_true_iff Hc]).
  apply negb_true_iff in Hc. apply negb_true_iff.
  repeat (apply orb_false_iff; split); assumption.
Qed.

Lemma split_tokens_tidy (val : pystr) :
  Forall (fun t => Topics.tidy t = true) (Topics.split_tokens val).
Proof.
  apply Forall_forall. intros t Ht.
  apply list_elem_of_In, split_tokens_In in Ht as (Hne & x & -> & Hx).
  unfold Topics.tidy. destruct (strip_ends_nonblank x Hne) as [-> ->].
  simpl. by apply forallb_strip.
Qed.

Lemma tidy_parts (k : pystr) :
  Topics.tidy k = true ->
  ListField.starts_nonblank k = true
  /\ ListField.starts_nonblank (rev k) = true
  /\ forallb (fun c => negb (ListField.structural c)) k = true.
Proof. unfold Topics.tidy. rewrite !andb_true_iff. tauto. Qed.

Lemma strip_pad_tidy (pad k : pystr) :
  forallb is_space pad = true -> Topics.tidy k = true -> strip (pad ++ k) = k.
Proof.
  intros Hpad Hk. apply tidy_parts in Hk as (H1 & H2 & _).
  unfold strip. rewrite lstrip_pad by done. by apply strip_nonblank.
Qed.

Lemma tidy_no_char (x : N) (k : pystr) :
  ListField.structural x = true -> Topics.tidy k = true ->
  forallb (fun d => negb (d =? x)) k = true.
Proof.
  intros Hx Hk. apply tidy_parts in Hk as (_ & _ & H).
  revert H. apply forallb_impl. intros c Hc.
  apply negb_true_iff, N.eqb_neq. intros ->.
  apply negb_true_iff in Hc. congruence.
Qed.

Lemma tidy_nonempty (k : pystr) : Topics.tidy k = true -> k <> [].
Proof. intros Hk ->. by vm_compute in Hk. Qed.

Lemma strip_tokens_tidy (pad : pystr) (ks : list pystr) :
  forallb is_space pad = true ->
  Forall (fun k => Topics.tidy k = true) ks ->
  filter (fun x => negb (str_eqb x [])) (map strip (map (fun k => pad ++ k) ks)) = ks.
Proof.
  intros Hpad. induction 1 as [|k ks Hk Hks IH]; [done|].
  cbn [map]. rewrite (strip_pad_tidy pad k Hpad Hk).
  rewrite filter_cons_True
    by (unfold str_eqb; rewrite bool_decide_eq_false_2; [done | by apply tidy_nonempty]).
  by rewrite IH.
Qed.

Lemma split_tokens_join (pad : pystr) (ks : list pystr) :
  forallb is_space pad = true ->
  Forall (fun k => Topics.tidy k = true) ks ->
  Topics.split_tokens (join (ch_comma :: pad) ks) = ks.
Proof.
  intros Hpad Hks. unfold Topics.split_tokens.
  assert (Hrm : forall x, ListField.structural x = true -> (ch_comma =? x) = false ->
                 remove_char x (join (ch_comma :: pad) ks) = join (ch_comma :: pad) ks).
  { intros x Hx Hc. apply remove_char_id, join_forallb.
    - cbn [forallb]. rewrite Hc. by apply pad_no_char.
    - eapply Forall_impl; [exact Hks|]. intros k Hk. by apply tidy_no_char. }
  rewrite !Hrm by done.
  destruct ks as [|k ks]; [reflexivity|].
  rewrite <- (app_nil_l (join _ _)), split_on_join; cycle 1.
  - by apply pad_no_char.
  - reflexivity.
  - eapply Forall_impl; [exact Hks|]. intros k0 Hk0. by apply tidy_no_char.
  - rewrite app_nil_l.
    change (k :: map (fun k' => pad ++ k') ks)
      with (map (fun k' => [] ++ k') [k] ++ map (fun k' => pad ++ k') ks).
    rewrite map_app, filter_app.
    inversion Hks as [|? ? Hk Hks']; subst.
    rewrite (strip_tokens_tidy [] [k]) by (done || by constructor).
    by rewrite (strip_tokens_tidy pad ks).
Qed.

Lemma split_heuristic_tokens (val : pystr) :
  ListField.split_heuristic val = map SStr (Topics.split_tokens val).
Proof. reflexivity. Qed.

Lemma tidy_join_not_literal (le : pystr -> option pyval) (sep k : pystr)
      (ks : list pystr) :
  Topics.tidy k = true ->
  str_eqb (join sep (k :: ks)) (py "[]") = false
  /\ ListField.try_literal le (join sep (k :: ks)) = None.
Proof.
  intros Hk. apply tidy_parts in Hk as (H1 & _ & H2).
  destruct k as [|c k]; [done|].
  cbn [forallb] in H2. apply andb_true_iff in H2 as [Hc _].
  apply negb_true_iff, structural_cases in Hc as (_ & Hlb & _).
  assert (E : exists rest, join sep ((c :: k) :: ks) = c :: rest).
  { destruct ks; [by eexists | rewrite join_cons_cons; by eexists]. }
  destruct E as [rest ->]. split.
  - unfold str_eqb. apply bool_decide_eq_false_2. intros [= -> _].
    vm_compute in Hlb. discriminate.
  - unfold ListField.try_literal, ListField.bracketed. cbn [startswith].
    by rewrite N.eqb_sym, Hlb.
Qed.

Lemma delimited_tidy_ok (le : pystr -> option pyval) (pad : pystr) (ks : list pystr) :
  forallb is_space pad = true ->
  Forall (fun k => Topics.tidy k = true) ks ->
  ListField.robust_eval_list le (ListField.delimited pad ks)
  = Returns (ListField.native ks).
Proof.
  intros Hpad Hks. destruct ks as [|k ks]; [reflexivity|].
  unfold ListField.delimited, ListField.native.
  rewrite robust_eval_list_str.
  assert (Hk : Topics.tidy k = true) by (by inversion Hks).
  rewrite strip_nonblank; cycle 1.
  - apply join_starts_nonblank. by apply tidy_parts in Hk as (H & _).
  - apply join_ends_nonblank. eapply Forall_impl; [exact Hks|].
    intros k0 Hk0. by apply tidy_parts in Hk0 as (_ & H & _).
  - destruct (tidy_join_not_literal le (ch_comma :: pad) k ks Hk) as [-> ->].
    by rewrite split_heuristic_tokens, split_tokens_join.
Qed.

(** X1. Every token the comma-split returns is tidy: not empty, without a
    blank at either end and without comma, bracket or quote. Joining the
    tokens with commas (and any blanks after them) and splitting again
    gives the same tokens, and the parser, whatever the structured parser
    does, returns a comma-delimited list of tidy keywords unchanged. *)
Theorem comma_split_tokens_stable (literal_eval : pystr -> option pyval) :
  (forall val : pystr,
      Forall (fun t => Topics.tidy t = true) (Topics.split_tokens val)
      /\ ListField.split_heuristic val = map SStr (Topics.split_tokens val))
  /\ (forall val pad : pystr,
         forallb is_space pad = true ->
         Topics.split_tokens (join (ch_comma :: pad) (Topics.split_tokens val))
         = Topics.split_tokens val)
  /\ (forall (ks : list pystr) (pad : pystr),
         forallb is_space pad = true ->
         Forall (fun k => Topics.tidy k = true) ks ->
         ListField.robust_eval_list literal_eval (ListField.delimited pad ks)
         = Returns (ListField.native ks)).
Proof.
  split; [|split].
  - intros val. split; [apply split_tokens_tidy | reflexivity].
  - intros val pad Hpad. apply split_tokens_join; [done | apply split_tokens_tidy].
  - intros ks pad Hpad Hks. by apply delimited_tidy_ok.
Qed.

Lemma comma_split_tokens_stable_witness :
  Topics.split_tokens (join (py ", ") (Topics.split_tokens (py "[lag, 'slow login' ,,]")))
  = Topics.split_tokens (py "[lag, 'slow login' ,,]")
  /\ ListField.robust_eval_list ListField.literal_eval_flat
       (ListField.delimited (py " ") [py "a\b"; py "slow login"])
     = Returns (ListField.native [py "a\b"; py "slow login"]).
Proof.
  destruct (comma_split_tokens_stable ListField.literal_eval_flat)
    as (_ & Hsplit & Hparse).
  split.
  - apply (Hsplit (py "[lag, 'slow login' ,,]") (py " ")). reflexivity.
  - apply Hparse; [reflexivity|]. repeat constructor.
Defined.

(** ** Topics and primary keywords *)

Lemma tidy_strip (k : pystr) : Topics.tidy k = true -> strip k = k.
Proof. apply (strip_pad_tidy [] k). reflexivity. Qed.

Lemma tidy_not_bracketed (k : pystr) :
  Topics.tidy k = true ->
  ListField.bracketed k = false /\ str_eqb k (py "[]") = false /\ str_eqb k [] = false.
Proof.
  intros Hk. pose proof (tidy_nonempty k Hk) as Hne.
  destruct (tidy_join_not_literal (fun _ => Some (PyList [])) [] k [] Hk) as [H1 H2].
  simpl in H1, H2. unfold ListField.try_literal in H2.
  split; [by destruct (ListField.bracketed k)|]. split; [done|].
  unfold str_eqb. by apply bool_decide_eq_false_2.
Qed.

(** What [clean_topic] does with a string that is already trimmed. *)
Lemma clean_topic_trimmed (repr_num : Qc -> pystr) (s : pystr) :
  strip s = s -> s <> [] -> s <> py "[]" -> ListField.bracketed s = false ->
  Topics.clean_topic repr_num (SStr s) = s.
Proof.
  intros Hs H1 H2 H3. unfold Topics.clean_topic. simpl. rewrite Hs, H3.
  unfold str_eqb. by rewrite !bool_decide_eq_false_2.
Qed.

Lemma clean_topic_cases (repr_num : Qc -> pystr) (val : scalar) :
  Topics.clean_topic repr_num val = py "Etc"
  \/ Topics.tidy (Topics.clean_topic repr_num val) = true
  \/ (let r := Topics.clean_topic repr_num val in
      strip r = r /\ r <> [] /\ r <> py "[]" /\ ListField.bracketed r = false).
Proof.
  unfold Topics.clean_topic. destruct (is_na val); [by left|].
  set (s_val := strip (str_of repr_num val)).
  unfold str_eqb. case_bool_decide as H1; [by left|].
  case_bool_decide as H2; [by left|]. simpl.
  destruct (ListField.bracketed s_val) eqn:Hb.
  - destruct (Topics.split_tokens s_val) as [|item items] eqn:E; [by left|].
    right. left. pose proof (split_tokens_tidy s_val) as HF.
    rewrite E in HF. by inversion HF.
  - right. right. simpl. repeat split; try done. apply strip_idemp.
Qed.

(** X2. [clean_topic] never returns the empty string, its result carries
    no blank at either end, and cleaning a cleaned topic changes nothing:
    applying it to the column twice is the same as applying it once. *)
Theorem clean_topic_idempotent (repr_num : Qc -> pystr) (val : scalar) :
  Topics.clean_topic repr_num val <> []
  /\ strip (Topics.clean_topic repr_num val) = Topics.clean_topic repr_num val
  /\ Topics.clean_topic repr_num (SStr (Topics.clean_topic repr_num val))
     = Topics.clean_topic repr_num val.
Proof.
  destruct (clean_topic_cases repr_num val) as [-> | [Ht | (Hs & H1 & H2 & H3)]].
  - repeat split; done.
  - split; [by apply tidy_nonempty|]. split; [by apply tidy_strip|].
    destruct (tidy_not_bracketed _ Ht) as (Hb & Hbr & Hne).
    apply clean_topic_trimmed; try done.
    + by apply tidy_strip.
    + by apply tidy_nonempty.
    + intros E. unfold str_eqb in Hbr. by rewrite bool_decide_eq_true_2 in Hbr.
  - split; [done|]. split; [done|]. by apply clean_topic_trimmed.
Qed.

(** X3. When the structured parse of a keyword cell fails, the primary
    keyword is a non-empty trimmed string: the first token of the
    comma-split, or ["Etc"] when there is none. On a bracketed cell it is
    the value [clean_topic] gives for the same text. A missing cell gives
    ["Etc"]. *)
Theorem primary_keyword_on_split_path
        (repr_num : Qc -> pystr) (literal_eval : pystr -> option pyval) :
  (forall s : pystr,
      literal_eval (strip s) = None ->
      exists t, Topics.get_first_kw_robust literal_eval (Atom (SStr s))
                = Topics.Keyword (SStr t)
                /\ t = match Topics.split_tokens (strip s) with
                       | item :: _ => item
                       | [] => py "Etc"
                       end
                /\ t <> [] /\ strip t = t)
  /\ (forall s : pystr,
         literal_eval (strip s) = None ->
         ListField.bracketed (strip s) = true ->
         Topics.get_first_kw_robust literal_eval (Atom (SStr s))
         = Topics.Keyword (SStr (Topics.clean_topic repr_num (SStr s))))
  /\ Topics.get_first_kw_robust literal_eval (Atom SNaN)
     = Topics.Keyword (SStr (py "Etc"))
  /\ Topics.get_first_kw_robust literal_eval (Atom SNone)
     = Topics.Keyword (SStr (py "Etc")).
Proof.
  assert (Hkw : forall s, literal_eval (strip s) = None ->
            Topics.get_first_kw_robust literal_eval (Atom (SStr s))
            = Topics.Keyword (SStr match Topics.split_tokens (strip s) with
                                   | item :: _ => item
                                   | [] => py "Etc"
                                   end)).
  { intros s Hs. unfold Topics.get_first_kw_robust.
    rewrite (robust_eval_list_degrades literal_eval s Hs), split_heuristic_tokens.
    by destruct (Topics.split_tokens (strip s)). }
  split; [|split; [|split]]; try reflexivity.
  - intros s Hs. eexists. split; [by apply Hkw|]. split; [done|].
    pose proof (split_tokens_tidy (strip s)) as HF.
    destruct (Topics.split_tokens (strip s)) as [|item items]; [done|].
    inversion HF; subst. split; [by apply tidy_nonempty | by apply tidy_strip].
  - intros s Hs Hb. rewrite (Hkw s Hs). do 2 f_equal.
    unfold Topics.clean_topic. simpl. rewrite Hb.
    unfold str_eqb. case_bool_decide as H1.
    { rewrite H1 in Hb. by vm_compute in Hb. }
    case_bool_decide as H2; [|done].
    rewrite H2. reflexivity.
Qed.

Lemma primary_keyword_on_split_path_witness :
  (exists t, Topics.get_first_kw_robust ListField.literal_eval_flat
               (Atom (SStr (py " [lag, login] ")))
             = Topics.Keyword (SStr t)
             /\ t = py "lag" /\ t <> [] /\ strip t = t)
  /\ Topics.get_first_kw_robust ListField.literal_eval_flat
       (Atom (SStr (py " [lag, login] ")))
     = Topics.Keyword
         (SStr (Topics.clean_topic (fun _ => []) (SStr (py " [lag, login] ")))).
Proof.
  destruct (primary_keyword_on_split_path (fun _ => []) ListField.literal_eval_flat)
    as (H1 & H2 & _).
  split.
  - apply (H1 (py " [lag, login] ")). vm_compute. reflexivity.
  - apply (H2 (py " [lag, login] ")); vm_compute; reflexivity.
Defined.

(** ** Means *)

Lemma Qc_of_nat_S (n : nat) : Qc_of_nat (S n) = (1 + Qc_of_nat n)%Qc.
Proof.
  unfold Qc_of_nat. rewrite Nat2Z.inj_succ, <- Z.add_1_l, Z2Qc_inj_add.
  by rewrite Z2Qc_inj_1.
Qed.

Lemma Qc_of_nat_pos (n : nat) : (0 < n)%nat -> (0 < Qc_of_nat n)%Qc.
Proof.
  intros H. unfold Qc_of_nat. rewrite <- Z2Qc_inj_0.
  apply (proj1 (Z2Qc_inj_lt 0 (Z.of_nat n))). lia.
Qed.

Lemma Qc_sum_bounds (a b : Qc) (l : list Qc) :
  Forall (fun x => (a ≤ x)%Qc /\ (x ≤ b)%Qc) l ->
  (Qc_of_nat (length l) * a ≤ Qc_sum l)%Qc
  /\ (Qc_sum l ≤ Qc_of_nat (length l) * b)%Qc.
Proof.
  induction 1 as [|x l [Hax Hxb] Hl [IH1 IH2]].
  - cbn [length Qc_sum foldr].
    replace (Qc_of_nat 0) with 0%Qc by (by apply Qc_is_canon).
    rewrite !Qcmult_0_l. split; apply Qcle_refl.
  - cbn [length Qc_sum foldr]. rewrite Qc_of_nat_S. fold (Qc_sum l). split.
    + replace ((1 + Qc_of_nat (length l)) * a)%Qc
        with (a + Qc_of_nat (length l) * a)%Qc by ring.
      by apply Qcplus_le_compat.
    + replace ((1 + Qc_of_nat (length l)) * b)%Qc
        with (b + Qc_of_nat (length l) * b)%Qc by ring.
      by apply Qcplus_le_compat.
Qed.

Lemma mean_bounds (a b : Qc) (l : list Qc) :
  l <> [] ->
  Forall (fun x => (a ≤ x)%Qc /\ (x ≤ b)%Qc) l ->
  exists m, mean l = Fin m /\ (a ≤ m)%Qc /\ (m ≤ b)%Qc.
Proof.
  intros Hne Hl. destruct (Qc_sum_bounds a b l Hl) as [H1 H2].
  assert (Hn : (0 < Qc_of_nat (length l))%Qc).
  { apply Qc_of_nat_pos. destruct l; [done | simpl; lia]. }
  assert (Hn0 : Qc_of_nat (length l) <> 0%Qc).
  { intros E. rewrite E in Hn. by apply Qclt_not_eq in Hn. }
  exists (Qc_sum l / Qc_of_nat (length l))%Qc.
  split; [by destruct l|]. split.
  - apply (Qcmult_le_mono_pos_r _ _ (Qc_of_nat (length l)) Hn).
    replace (Qc_sum l / Qc_of_nat (length l) * Qc_of_nat (length l))%Qc
      with (Qc_sum l) by (field; done).
    by rewrite Qcmult_comm.
  - apply (Qcmult_le_mono_pos_r _ _ (Qc_of_nat (length l)) Hn).
    replace (Qc_sum l / Qc_of_nat (length l) * Qc_of_nat (length l))%Qc
      with (Qc_sum l) by (field; done).
    by rewrite (Qcmult_comm b).
Qed.

(** ** Sentiment labels *)

Lemma classify_cases (score : Z) :
  (Sentiment.classify_sentiment_fallback score = py "Positive" /\ (4 <= score)%Z)
  \/ (Sentiment.classify_sentiment_fallback score = py "Neutral" /\ score = 3%Z)
  \/ (Sentiment.classify_sentiment_fallback score = py "Negative" /\ (score <= 2)%Z).
Proof.
  unfold Sentiment.classify_sentiment_fallback.
  destruct (Z.leb_spec 4 score); [by left|].
  destruct (Z.eqb_spec score 3); [right; by left|].
  right. right. split; [done | lia].
Qed.

(** X4. Without sentiment columns the label comes from the score alone: a
    review whose score cell is not a number was given score 0 and is
    labelled Negative, with sentiment value 0. The sentiment value never
    decreases when the score grows, and it is 100 exactly for scores of 4
    and more, 50 exactly for 3, 0 exactly for 2 and less. *)
Theorem fallback_label_of_score (parse_number : pystr -> option Qc) :
  (forall x : scalar,
      Scores.to_numeric parse_number x = NaN ->
      Sentiment.classify_sentiment_fallback (Scores.overview_score parse_number x)
      = py "Negative"
      /\ Sentiment.get_numeric_sentiment
           (Sentiment.classify_sentiment_fallback
              (Scores.overview_score parse_number x)) = 0%Z)
  /\ (forall a b : Z,
         (a <= b)%Z ->
         (Sentiment.get_numeric_sentiment (Sentiment.classify_sentiment_fallback a)
          <= Sentiment.get_numeric_sentiment (Sentiment.classify_sentiment_fallback b))%Z)
  /\ (forall score : Z,
         let v := Sentiment.get_numeric_sentiment
                    (Sentiment.classify_sentiment_fallback score) in
         (v = 100%Z <-> (4 <= score)%Z)
         /\ (v = 50%Z <-> score = 3%Z)
         /\ (v = 0%Z <-> (score <= 2)%Z)).
Proof.
  assert (Hv : forall score,
             (Sentiment.get_numeric_sentiment
                (Sentiment.classify_sentiment_fallback score) = 100%Z /\ (4 <= score)%Z)
             \/ (Sentiment.get_numeric_sentiment
                   (Sentiment.classify_sentiment_fallback score) = 50%Z /\ score = 3%Z)
             \/ (Sentiment.get_numeric_sentiment
                   (Sentiment.classify_sentiment_fallback score) = 0%Z /\ (score <= 2)%Z)).
  { intros score.
    destruct (classify_cases score) as [[-> H] | [[-> H] | [-> H]]];
      [left | right; left | right; right]; by split. }
  split; [|split].
  - intros x Hx. unfold Scores.overview_score. rewrite Hx. by split.
  - intros a b Hab.
    destruct (Hv a) as [[-> Ha] | [[-> Ha] | [-> Ha]]];
      destruct (Hv b) as [[-> Hb] | [[-> Hb] | [-> Hb]]]; lia.
  - intros score. simpl.
    destruct (Hv score) as [[-> H] | [[-> H] | [-> H]]]; repeat split; lia.
Qed.

Lemma fallback_label_of_score_witness :
  Sentiment.classify_sentiment_fallback
    (Scores.overview_score Scores.parse_digits (SStr (py "abc")))
  = py "Negative"
  /\ (Sentiment.get_numeric_sentiment (Sentiment.classify_sentiment_fallback 2)
      <= Sentiment.get_numeric_sentiment (Sentiment.classify_sentiment_fallback 5))%Z.
Proof.
  destruct (fallback_label_of_score Scores.parse_digits) as (Hmiss & Hmono & _).
  split.
  - apply (Hmiss (SStr (py "abc"))). reflexivity.
  - apply Hmono. lia.
Defined.

Lemma map_sentiment_str (repr_num : Qc -> pystr) (s : pystr) :
  Sentiment.map_sentiment repr_num (SStr s)
  = if str_eqb (strip s) (py "긍정") then py "Positive"
    else if str_eqb (strip s) (py "부정") then py "Negative"
    else py "Neutral".
Proof. reflexivity. Qed.

(** X5. [map_sentiment] looks at the trimmed text only: blanks before and
    after the sentiment word do not change the label. The label is
    Positive exactly when the trimmed text is the Korean word for
    positive, Negative exactly for the word for negative, and Neutral for
    everything else, a missing cell included. *)
Theorem map_sentiment_ignores_blanks (repr_num : Qc -> pystr) :
  (forall s pad pad' : pystr,
      forallb is_space pad = true -> forallb is_space pad' = true ->
      Sentiment.map_sentiment repr_num (SStr (pad ++ s ++ pad'))
      = Sentiment.map_sentiment repr_num (SStr s))
  /\ (forall s : pystr,
         (Sentiment.map_sentiment repr_num (SStr s) = py "Positive"
          <-> strip s = py "긍정")
         /\ (Sentiment.map_sentiment repr_num (SStr s) = py "Negative"
             <-> strip s = py "부정")
         /\ (Sentiment.map_sentiment repr_num (SStr s) = py "Neutral"
             <-> strip s <> py "긍정" /\ strip s <> py "부정"))
  /\ Sentiment.map_sentiment repr_num SNaN = py "Neutral"
  /\ Sentiment.map_sentiment repr_num SNone = py "Neutral".
Proof.
  split; [|split; [|split; reflexivity]].
  - intros s pad pad' H1 H2. rewrite !map_sentiment_str.
    by rewrite strip_pad_both.
  - intros s. rewrite map_sentiment_str. unfold str_eqb.
    case_bool_decide as H1; [|case_bool_decide as H2].
    + rewrite H1. repeat split; try done; try (intros [? ?]; done).
    + rewrite H2. repeat split; try done; try (intros [? ?]; done).
    + repeat split; try done.
Qed.

Lemma map_sentiment_ignores_blanks_witness :
  Sentiment.map_sentiment (fun _ => []) (SStr (py " " ++ py "긍정" ++ py "  "))
  = Sentiment.map_sentiment (fun _ => []) (SStr (py "긍정")).
Proof.
  destruct (map_sentiment_ignores_blanks (fun _ => [])) as (H & _).
  apply H; reflexivity.
Defined.

Lemma numeric_sentiment_range (label : pystr) :
  (Qc_of_Z 0 ≤ Qc_of_Z (Sentiment.get_numeric_sentiment label))%Qc
  /\ (Qc_of_Z (Sentiment.get_numeric_sentiment label) ≤ Qc_of_Z 100)%Qc.
Proof.
  unfold Sentiment.get_numeric_sentiment.
  destruct (str_eqb label (py "Positive")); [|destruct (str_eqb label (py "Negative"))];
    split; apply (proj1 (Z2Qc_inj_le _ _)); lia.
Qed.

(** X6. The average sentiment score of a frame with at least one review is
    a number between 0 and 100, whatever the labels are; for a frame
    without reviews it is NaN. *)
Theorem avg_senti_range (labels : list pystr) :
  (labels <> [] ->
   exists m, Sentiment.avg_senti labels = Fin m
             /\ (Qc_of_Z 0 ≤ m)%Qc /\ (m ≤ Qc_of_Z 100)%Qc)
  /\ (labels = [] -> Sentiment.avg_senti labels = NaN).
Proof.
  split.
  - intros Hne. unfold Sentiment.avg_senti. apply mean_bounds.
    + by destruct labels.
    + apply Forall_forall. intros x Hx.
      apply list_elem_of_In, in_map_iff in Hx as (label & <- & _).
      apply numeric_sentiment_range.
  - by intros ->.
Qed.

Lemma avg_senti_range_witness :
  exists m, Sentiment.avg_senti [py "Positive"; py "Negative"; py "Neutral"] = Fin m
            /\ (Qc_of_Z 0 ≤ m)%Qc /\ (m ≤ Qc_of_Z 100)%Qc.
Proof.
  destruct (avg_senti_range [py "Positive"; py "Negative"; py "Neutral"]) as [H _].
  apply H. discriminate.
Defined.

(** ** More on sorting and frequency tables *)

Section SortingMore.

Context {A K : Type} `{EqDecision K} (ltb : K -> K -> bool) (key : A -> K).

Hypothesis ltb_irrefl : forall a, ltb a a = false.

Lemma insert_by_filter_key (k : K) (x : A) (l : list A) :
  filter (fun y => bool_decide (key y = k)) (insert_by ltb key x l)
  = filter (fun y => bool_decide (key y = k)) (x :: l).
Proof.
  induction l as [|y l IH]; [done|].
  simpl. destruct (ltb (key y) (key x)) eqn:E; [|done].
  rewrite (filter_cons _ y (insert_by ltb key x l)), IH.
  rewrite !filter_cons.
  destruct (decide (bool_decide (key y = k))) as [Hy|Hy];
    destruct (decide (bool_decide (key x = k))) as [Hx|Hx]; try done.
  apply bool_decide_unpack in Hy, Hx. rewrite <- Hx in Hy. rewrite Hy in E.
  by rewrite ltb_irrefl in E.
Qed.

(** Elements with the same key keep their order. *)
Lemma sorted_by_stable (k : K) (l : list A) :
  filter (fun y => bool_decide (key y = k)) (sorted_by ltb key l)
  = filter (fun y => bool_decide (key y = k)) l.
Proof.
  induction l as [|x l IH]; [done|].
  unfold sorted_by in *. simpl. rewrite insert_by_filter_key.
  rewrite !filter_cons. by rewrite IH.
Qed.

End SortingMore.

Lemma unique_NoDup {A : Type} `{EqDecision A} (l : list A) : NoDup (unique l).
Proof.
  induction l as [|x l IH]; simpl; [constructor|].
  constructor.
  - rewrite list_elem_of_filter. intros [H _].
    apply negb_True in H. by rewrite bool_decide_spec in H.
  - by apply NoDup_filter.
Qed.

Lemma count_of_In {A : Type} `{EqDecision A} (x : A) (l : list A) :
  (0 < count_of x l)%nat <-> In x l.
Proof.
  unfold count_of. induction l as [|y l IH]; simpl; [lia|].
  rewrite filter_cons. destruct (decide (bool_decide (y = x))) as [H|H].
  - apply bool_decide_unpack in H. subst. simpl. split; [by left | lia].
  - rewrite IH. split; [by right|]. intros [->|H']; [|done].
    by rewrite bool_decide_eq_true_2 in H.
Qed.

Lemma value_counts_In {A : Type} `{EqDecision A} (x : A) (n : nat) (l : list A) :
  In (x, n) (value_counts l) <-> In x l /\ n = count_of x l.
Proof.
  unfold value_counts. rewrite sorted_by_In, in_map_iff. split.
  - intros (y & [= <- <-] & Hy). split; [exact (proj1 (unique_In _ _) Hy) | done].
  - intros [Hx ->]. exists x. split; [done | exact (proj2 (unique_In _ _) Hx)].
Qed.

Lemma value_counts_NoDup {A : Type} `{EqDecision A} (l : list A) :
  NoDup (map fst (value_counts l)).
Proof.
  unfold value_counts.
  rewrite (Permutation_map fst (sorted_by_perm _ _ _)).
  rewrite map_map. simpl. rewrite map_id. apply unique_NoDup.
Qed.

Lemma value_counts_sorted {A : Type} `{EqDecision A} (l : list A) :
  StronglySorted (fun a b => (snd b <= snd a)%nat) (value_counts l).
Proof.
  apply Sorted_StronglySorted.
  - intros a b c. lia.
  - unfold value_counts.
    eapply Sorted_ind with (P := fun l' => Sorted _ l');
      [constructor | | apply (sorted_by_sorted (fun a b => Nat.ltb b a) snd)].
    + intros a l' _ IH Hhd. constructor; [exact IH|].
      destruct Hhd as [|b l'' Hab]; constructor.
      unfold key_le in Hab. apply Nat.ltb_ge in Hab. exact Hab.
    + intros a b Hab. apply Nat.ltb_lt in Hab. apply Nat.ltb_ge. lia.
Qed.

Lemma value_counts_head {A : Type} `{EqDecision A} (l : list A)
      (x : A) (n : nat) (rest : list (A * nat)) :
  value_counts l = (x, n) :: rest ->
  In x l /\ n = count_of x l /\ forall y, (count_of y l <= n)%nat.
Proof.
  intros E.
  assert (Hin : In (x, n) (value_counts l)) by (rewrite E; by left).
  apply value_counts_In in Hin as [Hx Hn]. split; [done|]. split; [done|].
  intros y. destruct (Nat.eq_dec (count_of y l) 0%nat) as [->|Hy]; [lia|].
  assert (Hyin : In (y, count_of y l) (value_counts l)).
  { apply value_counts_In. split; [apply count_of_In; lia | done]. }
  pose proof (value_counts_sorted l) as Hs. rewrite E in Hs, Hyin.
  destruct Hyin as [[= -> ->] | Hyin]; [lia|].
  apply StronglySorted_inv in Hs as [_ Hs]. rewrite Forall_forall in Hs.
  apply list_elem_of_In in Hyin. apply (Hs _ Hyin).
Qed.

(** X7. [get_top_item] returns a most frequent value of the cells that are
    not missing: the value occurs among them and no value occurs more
    often. When every cell is missing, or the series is empty, it returns
    ["Unknown"]. *)
Theorem get_top_item_is_mode (series : list scalar) :
  let present := filter (fun x => negb (is_na x)) series in
  (present = [] -> Clusters.get_top_item series = SStr (py "Unknown"))
  /\ (present <> [] ->
      In (Clusters.get_top_item series) present
      /\ is_na (Clusters.get_top_item series) = false
      /\ forall y, (count_of y present <= count_of (Clusters.get_top_item series) present)%nat).
Proof.
  simpl. unfold Clusters.get_top_item.
  set (present := filter (fun x => negb (is_na x)) series).
  split.
  - intros E. by rewrite E.
  - intros Hne.
    destruct (value_counts present) as [|[x n] rest] eqn:E.
    + exfalso. destruct present as [|y present'] eqn:Ep; [done|].
      assert (Hy : In (y, count_of y (y :: present')) (value_counts (y :: present'))).
      { apply value_counts_In. split; [by left | done]. }
      by rewrite E in Hy.
    + destruct (value_counts_head present x n rest E) as (Hx & -> & Hmax).
      split; [done|]. split; [|done].
      apply list_elem_of_In, list_elem_of_filter in Hx as [Hx _].
      apply negb_True in Hx. by destruct (is_na x).
Qed.

Lemma get_top_item_is_mode_witness :
  Clusters.get_top_item [SNaN; SNone] = SStr (py "Unknown")
  /\ In (Clusters.get_top_item [SStr (py "bug"); SNaN; SStr (py "ui"); SStr (py "ui")])
        [SStr (py "bug"); SStr (py "ui"); SStr (py "ui")].
Proof.
  split.
  - apply (get_top_item_is_mode [SNaN; SNone]). reflexivity.
  - apply (get_top_item_is_mode
             [SStr (py "bug"); SNaN; SStr (py "ui"); SStr (py "ui")]).
    discriminate.
Defined.

(** ** The keyword dictionary and the cluster labels *)









(** ** Counting by key *)

Lemma sum_indicator {K : Type} `{EqDecision K} (a : K) (ks : list K) :
  NoDup ks -> a ∈ ks ->
  sum_list_with (fun k => if bool_decide (a = k) then 1%nat else 0%nat) ks = 1%nat.
Proof.
  induction 1 as [|k ks Hk Hks IH]; [by intros ?%elem_of_nil|].
  intros Ha. simpl. case_bool_decide as E.
  - subst k. f_equal. clear IH Ha. induction ks as [|k' ks IH]; [done|].
    simpl. rewrite bool_decide_eq_false_2.
    + apply IH; [by intros ?; apply Hk; right | by inversion Hks].
    + intros ->. apply Hk. by left.
  - apply elem_of_cons in Ha as [Ha | Ha]; [done|]. by rewrite IH.
Qed.

(** Grouping by key loses no row: the group sizes add up to the number of
    rows. *)
Lemma group_sizes_sum {A K : Type} `{EqDecision K} (key : A -> K)
      (ks : list K) (l : list A) :
  NoDup ks -> (forall x, In x l -> key x ∈ ks) ->
  sum_list_with (fun k => length (filter (fun x => bool_decide (key x = k)) l)) ks
  = length l.
Proof.
  intros Hks. induction l as [|x l IH]; intros Hl.
  - simpl. clear Hks Hl. induction ks as [|k ks IHk]; [done|]. simpl.
    exact IHk.
  - transitivity
      (sum_list_with (fun k => if bool_decide (key x = k) then 1%nat else 0%nat) ks
       + sum_list_with
           (fun k => length (filter (fun x => bool_decide (key x = k)) l)) ks)%nat.
    + clear IH Hl Hks. induction ks as [|k ks IHk]; [done|].
      cbn [sum_list_with]. rewrite IHk. rewrite filter_cons.
      destruct (decide (bool_decide (key x = k))) as [H|H].
      * rewrite (bool_decide_eq_true_2 _ (bool_decide_unpack _ H)). simpl. lia.
      * rewrite (bool_decide_eq_false_2 (key x = k)); [lia|].
        intros E. apply H. by apply bool_decide_pack.
    + rewrite sum_indicator; [|done | apply Hl; by left].
      rewrite IH; [done|]. intros y Hy. apply Hl. by right.
Qed.

Lemma filter_filter_length {A : Type} (p q : A -> bool) (l : list A) :
  length (filter (fun x => p x) (filter (fun x => q x) l))
  = length (filter (fun x => q x) (filter (fun x => p x) l)).
Proof.
  induction l as [|x l IH]; [done|].
  rewrite !(filter_cons _ x l).
  destruct (decide (q x)) as [Hq|Hq], (decide (p x)) as [Hp|Hp];
    rewrite ?filter_cons; repeat destruct (decide _); simpl; try done; by rewrite IH.
Qed.

(** ** Cluster aggregates *)

Lemma base_stats_sum_count (df : list Clusters.review) :
  sum_list_with Clusters.count (Clusters.base_stats df)
  = length (filter (fun r => negb (is_na (Clusters.reviewId r)))
                   (Clusters.drop_noise df)).
Proof.
  unfold Clusters.base_stats. set (c_df := Clusters.drop_noise df).
  set (present := filter (fun r => negb (is_na (Clusters.reviewId r))) c_df).
  rewrite <- (group_sizes_sum Clusters.cluster
                (sorted_by Versions.str_ltb id (unique (map Clusters.cluster c_df)))
                present).
  - induction (sorted_by Versions.str_ltb id (unique (map Clusters.cluster c_df)))
      as [|k ks IH]; [done|].
    cbn [map sum_list_with]. rewrite IH. f_equal.
    unfold Clusters.aggregate. cbn [Clusters.count]. unfold present, str_eqb.
    apply (filter_filter_length
             (fun r => negb (is_na (Clusters.reviewId r)))
             (fun r => bool_decide (Clusters.cluster r = k))).
  - rewrite (sorted_by_perm _ _ _). apply unique_NoDup.
  - intros r Hr. apply list_elem_of_In, sorted_by_In, unique_In, in_map.
    apply list_elem_of_In, list_elem_of_filter in Hr as [_ Hr].
    by apply list_elem_of_In.
Qed.

Lemma base_stats_group (df : list Clusters.review) (row : Clusters.stats_row) :
  In row (Clusters.base_stats df) ->
  exists r g,
    filter (fun r => str_eqb (Clusters.cluster r) (Clusters.row_cluster row))
           (Clusters.drop_noise df) = r :: g.
Proof.
  intros Hrow. apply base_stats_In in Hrow as (_ & r & Hr & Hc & Hne).
  destruct (filter _ _) as [|r' g] eqn:E; [|by eexists _, _].
  exfalso. assert (Hin : r ∈ filter
                           (fun r => str_eqb (Clusters.cluster r)
                                             (Clusters.row_cluster row))
                           (Clusters.drop_noise df)).
  { apply list_elem_of_filter. split.
    - unfold str_eqb. by rewrite bool_decide_eq_true_2.
    - apply list_elem_of_In, drop_noise_In. split; [done|]. by rewrite Hc in Hne |- *. }
  rewrite E in Hin. by apply elem_of_nil in Hin.
Qed.

Lemma aggregate_of_group (c_df : list Clusters.review) (cid : pystr)
      (r : Clusters.review) (g : list Clusters.review) :
  filter (fun r => str_eqb (Clusters.cluster r) cid) c_df = r :: g ->
  Clusters.count (Clusters.aggregate c_df cid)
  = length (filter (fun r => negb (is_na (Clusters.reviewId r))) (r :: g))
  /\ Clusters.avg_intensity (Clusters.aggregate c_df cid)
     = Fin (Qc_sum (map Clusters.intensity (r :: g)) / Qc_of_nat (length (r :: g)))%Qc.
Proof.
  intros E. unfold Clusters.aggregate. cbn [Clusters.count Clusters.avg_intensity].
  rewrite E. split; [done|]. unfold mean. cbn [map length]. by rewrite length_map.
Qed.

Lemma base_stats_impact_finite (df : list Clusters.review) (row : Clusters.stats_row) :
  In row (Clusters.base_stats df) -> exists p, Clusters.impact_score row = Fin p.
Proof.
  intros Hrow. destruct (base_stats_group df row Hrow) as (r & g & E).
  apply base_stats_In in Hrow as (Hagg & _).
  destruct (aggregate_of_group _ _ _ _ E) as [_ Havg].
  rewrite <- Hagg in Havg. unfold Clusters.impact_score. rewrite Havg. by eexists.
Qed.

Lemma fltb_asym (a b : pyfloat) : fltb b a = true -> fltb a b = false.
Proof.
  destruct a as [p|], b as [q|]; simpl; try done.
  rewrite bool_decide_eq_true, bool_decide_eq_false. intros H1 H2.
  by apply (Qclt_not_le _ _ H1), Qclt_le_weak.
Qed.

Lemma impact_ge_trans (x y z : Clusters.stats_row) :
  ClusterLabel.impact_ge x y -> ClusterLabel.impact_ge y z -> ClusterLabel.impact_ge x z.
Proof.
  intros (p & q & Hp & Hq & H1) (q' & r & Hq' & Hr & H2).
  rewrite Hq in Hq'. injection Hq' as <-.
  exists p, r. repeat split; try done. by eapply Qcle_trans.
Qed.

Lemma StronglySorted_app_inv {A : Type} (R : A -> A -> Prop) (l1 l2 : list A) :
  StronglySorted R (l1 ++ l2) ->
  forall x y, In x l1 -> In y l2 -> R x y.
Proof.
  induction l1 as [|a l1 IH]; [done|].
  simpl. intros Hs x y Hx Hy. apply StronglySorted_inv in Hs as [Hs Ha].
  destruct Hx as [<- | Hx]; [|by apply IH].
  rewrite Forall_forall in Ha. apply Ha, list_elem_of_In, in_or_app. by right.
Qed.

Lemma sorted_by_impact (rows : list Clusters.stats_row) :
  Forall (fun row => exists p, Clusters.impact_score row = Fin p) rows ->
  StronglySorted ClusterLabel.impact_ge
    (sorted_by (fun a b => fltb b a) Clusters.impact_score rows).
Proof.
  intros Hfin. apply Sorted_StronglySorted.
  { intros x y z. apply impact_ge_trans. }
  assert (Hfin' : Forall (fun row => exists p, Clusters.impact_score row = Fin p)
                         (sorted_by (fun a b => fltb b a) Clusters.impact_score rows)).
  { by rewrite (sorted_by_perm _ _ _). }
  pose proof (sorted_by_sorted (fun a b => fltb b a) Clusters.impact_score
                (fun a b => fltb_asym a b) rows) as Hs.
  induction Hs as [|x l Hs IH Hhd]; [constructor|].
  inversion Hfin' as [|? ? [p Hp] Hl]; subst.
  constructor; [by apply IH|].
  destruct Hhd as [|y l Hxy]; constructor.
  inversion Hl as [|? ? [q Hq] _]; subst.
  exists p, q. repeat split; try done.
  unfold key_le in Hxy. rewrite Hp, Hq in Hxy. simpl in Hxy.
  apply bool_decide_eq_false in Hxy. by apply Qcnot_lt_le.
Qed.

(** X10. The rows chosen for the cluster chart: at most five per group,
    the Negative (Risk) rows first; each chosen row is an aggregate of its
    group, and no aggregate of the group that was left out has a higher
    impact than a chosen one. As soon as one review has a cluster id other
    than ["-1"] there is an aggregate, and then at least one row is
    chosen. *)
Theorem cluster_stats_top_five (df : list Clusters.review) :
  Clusters.cluster_stats df
  = Clusters.top5 Clusters.NegativeRisk (Clusters.base_stats df)
    ++ Clusters.top5 Clusters.PositiveStrength (Clusters.base_stats df)
  /\ (forall g : Clusters.group,
         let chosen := Clusters.top5 g (Clusters.base_stats df) in
         (length chosen <= 5)%nat
         /\ Forall (fun row => In row (Clusters.base_stats df)
                               /\ Clusters.determine_group_type row = g) chosen
         /\ exists rest,
             Permutation
               (filter (fun row => Clusters.group_eqb
                                     (Clusters.determine_group_type row) g)
                       (Clusters.base_stats df))
               (chosen ++ rest)
             /\ forall x y, In x chosen -> In y rest -> ClusterLabel.impact_ge x y)
  /\ (Clusters.cluster_stats df = [] -> Clusters.base_stats df = [])
  /\ (Clusters.base_stats df = []
      <-> Forall (fun r => Clusters.cluster r = py "-1") df).
Proof.
  split; [reflexivity|]. split; [|split].
  - intros g. simpl. unfold Clusters.top5.
    set (members := filter (fun row => Clusters.group_eqb
                                         (Clusters.determine_group_type row) g)
                           (Clusters.base_stats df)).
    set (sorted := sorted_by (fun a b => fltb b a) Clusters.impact_score members).
    split; [rewrite length_firstn; lia|]. split.
    + apply Forall_forall. intros row Hrow.
      apply (subseteq_take 5), list_elem_of_In, sorted_by_In in Hrow.
      apply list_elem_of_In, list_elem_of_filter in Hrow as [Hg Hrow].
      split; [by apply list_elem_of_In|].
      by destruct (Clusters.determine_group_type row), g.
    + exists (drop 5 sorted). split.
      * rewrite take_drop. symmetry. apply sorted_by_perm.
      * apply StronglySorted_app_inv. rewrite take_drop.
        apply sorted_by_impact. apply Forall_forall. intros row Hrow.
        apply list_elem_of_filter in Hrow as [_ Hrow].
        by apply (base_stats_impact_finite df), list_elem_of_In.
  - intros E. destruct (Clusters.base_stats df) as [|row stats] eqn:Es; [done|].
    exfalso. unfold Clusters.cluster_stats in E. rewrite Es in E.
    apply app_eq_nil in E as [E1 E2].
    assert (Hnil : forall g, Clusters.top5 g (row :: stats) = [] ->
              filter (fun row => Clusters.group_eqb
                                    (Clusters.determine_group_type row) g)
                     (row :: stats) = []).
    { intros g Hg. unfold Clusters.top5 in Hg.
      destruct (filter _ (row :: stats)) as [|m ms] eqn:Em; [done|].
      exfalso.
      assert (Hin : In m (sorted_by (fun a b => fltb b a) Clusters.impact_score
                                    (m :: ms))) by (apply sorted_by_In; by left).
      destruct (sorted_by _ _ (m :: ms)); [done | discriminate]. }
    destruct (Clusters.determine_group_type row) eqn:Eg.
    + apply Hnil in E1. rewrite filter_cons_True in E1; [done|]. by rewrite Eg.
    + apply Hnil in E2. rewrite filter_cons_True in E2; [done|]. by rewrite Eg.
  - fold Clusters.SENTINEL. split.
    + intros E. apply Forall_forall. intros r Hr.
      destruct (decide (Clusters.cluster r = Clusters.SENTINEL)) as [|Hne]; [done|].
      exfalso. unfold Clusters.base_stats in E. apply map_eq_nil in E.
      assert (Hin : In (Clusters.cluster r)
                       (sorted_by Versions.str_ltb id
                          (unique (map Clusters.cluster (Clusters.drop_noise df))))).
      { apply sorted_by_In, unique_In, in_map, drop_noise_In.
        split; [by apply list_elem_of_In | done]. }
      by rewrite E in Hin.
    + intros Hall. unfold Clusters.base_stats.
      replace (Clusters.drop_noise df) with (@nil Clusters.review); [done|].
      symmetry. unfold Clusters.drop_noise.
      induction Hall as [|r df' Hr Hall IH]; [done|].
      rewrite filter_cons_False; [exact IH|].
      unfold str_eqb. rewrite bool_decide_eq_true_2 by done. simpl. tauto.
Qed.





(** X12. The review counts of the clusters add up to the number of
    reviews that have a review id and a cluster id other than ["-1"]:
    each such review is counted in exactly one cluster. *)
Theorem cluster_counts_partition (df : list Clusters.review) :
  sum_list_with Clusters.count (Clusters.base_stats df)
  = length (filter (fun r => negb (is_na (Clusters.reviewId r))
                             && negb (str_eqb (Clusters.cluster r) (py "-1"))) df)
  /\ NoDup (map Clusters.row_cluster (Clusters.base_stats df)).
Proof.
  split.
  - rewrite base_stats_sum_count. unfold Clusters.drop_noise. fold Clusters.SENTINEL.
    f_equal. induction df as [|r df IH]; [done|].
    destruct (str_eqb (Clusters.cluster r) Clusters.SENTINEL) eqn:Es.
    + rewrite (filter_cons_False _ r df) by (rewrite Es; simpl; tauto).
      rewrite (filter_cons_False _ r df); [exact IH|].
      rewrite Es, andb_false_r. simpl. tauto.
    + rewrite (filter_cons_True _ r df) by (by rewrite Es).
      destruct (is_na (Clusters.reviewId r)) eqn:Ei.
      * rewrite !filter_cons_False by (rewrite ?Es, Ei; simpl; tauto). exact IH.
      * rewrite !filter_cons_True by (by rewrite ?Es, Ei). by rewrite IH.
  - unfold Clusters.base_stats. rewrite map_map. simpl. rewrite map_id.
    rewrite (sorted_by_perm _ _ _). apply unique_NoDup.
Qed.

(** ** Treemap rows *)

Lemma filter_filter_andb {A : Type} (f g : A -> bool) (l : list A) :
  filter (fun x => f x) (filter (fun x => g x) l) = filter (fun x => g x && f x) l.
Proof.
  induction l as [|x l IH]; [done|].
  destruct (g x) eqn:Eg.
  - rewrite (filter_cons_True (fun x => g x) x l) by (by rewrite Eg).
    destruct (f x) eqn:Ef.
    + rewrite !filter_cons_True by (by rewrite ?Eg, Ef). by rewrite IH.
    + rewrite !filter_cons_False by (rewrite ?Eg, Ef; simpl; tauto). exact IH.
  - rewrite (filter_cons_False (fun x => g x) x l) by (rewrite Eg; simpl; tauto).
    rewrite filter_cons_False by (rewrite Eg; simpl; tauto). exact IH.
Qed.

Lemma filter_ext_bool {A : Type} (f g : A -> bool) (l : list A) :
  (forall x, f x = g x) -> filter (fun x => f x) l = filter (fun x => g x) l.
Proof.
  intros H. induction l as [|x l IH]; [done|].
  rewrite !(filter_cons _ x l), IH.
  destruct (decide (f x)) as [Hf|Hf], (decide (g x)) as [Hg|Hg];
    try done; rewrite H in Hf; tauto.
Qed.

Lemma valid_rows_group (sent_label : pystr) (df : list Topics.topic_row)
      (t k : pystr) :
  t ∉ Topics.generic_terms ->
  filter (fun r => bool_decide (Topics.group_key r = (t, k)))
         (Topics.valid_rows sent_label df)
  = filter (fun r => str_eqb (Topics.t_label r) sent_label
                     && bool_decide (Topics.group_key r = (t, k))) df.
Proof.
  intros Ht. unfold Topics.valid_rows.
  rewrite !filter_filter_andb. apply filter_ext_bool. intros r.
  destruct (str_eqb (Topics.t_label r) sent_label); [|done]. simpl.
  destruct (bool_decide (Topics.group_key r = (t, k))) eqn:Hk;
    [|by rewrite andb_false_r].
  apply bool_decide_eq_true in Hk.
  unfold Topics.group_key in Hk. injection Hk as Ht' _.
  rewrite Ht'. by rewrite bool_decide_eq_false_2.
Qed.

(** X13. The rows of the treemap: a (topic, keyword) pair is drawn with
    size [n] exactly when the topic is not a generic term, [n] reviews of
    the chosen sentiment carry that pair, and [n] is more than two. No
    pair is drawn twice. *)
Theorem tree_data_rows (sent_label : pystr) (df : list Topics.topic_row) :
  NoDup (map fst (Topics.tree_data sent_label df))
  /\ forall (t k : pystr) (n : nat),
      In (t, k, n) (Topics.tree_data sent_label df)
      <-> (t ∉ Topics.generic_terms)
          /\ n = length (filter (fun r => str_eqb (Topics.t_label r) sent_label
                                          && bool_decide (Topics.group_key r = (t, k)))
                                df)
          /\ (2 < n)%nat.
Proof.
  unfold Topics.tree_data.
  set (t_subset := Topics.valid_rows sent_label df).
  set (keys := sorted_by Topics.pair_ltb id (unique (map Topics.group_key t_subset))).
  assert (Hkeys : forall key, In key keys
                   <-> exists r, In r t_subset /\ Topics.group_key r = key).
  { intros key. unfold keys. rewrite sorted_by_In, unique_In, in_map_iff.
    split; intros (r & H1 & H2); by exists r. }
  split.
  - eapply (sublist_NoDup _ (map fst (map (fun k => (k, length (filter (fun r =>
              bool_decide (Topics.group_key r = k)) t_subset))) keys))).
    + rewrite map_map. simpl. rewrite map_id. unfold keys.
      rewrite (sorted_by_perm _ _ _). apply unique_NoDup.
    + apply fmap_sublist, sublist_filter.
  - intros t k n. rewrite <- list_elem_of_In, list_elem_of_filter, list_elem_of_In.
    rewrite in_map_iff. split.
    + intros [Hn (key & [= -> <-] & Hkey)].
      apply Hkeys in Hkey as (r & Hr & Hk).
      assert (Ht : t ∉ Topics.generic_terms).
      { apply list_elem_of_In, list_elem_of_filter in Hr as [Hr _].
        apply negb_True in Hr. rewrite bool_decide_spec in Hr.
        unfold Topics.group_key in Hk. by injection Hk as <- _. }
      split; [done|]. rewrite <- (valid_rows_group _ _ _ _ Ht).
      split; [done|]. simpl in Hn. by apply Is_true_true, Nat.ltb_lt in Hn.
    + intros (Ht & Hn & Hlt). rewrite <- (valid_rows_group _ _ _ _ Ht) in Hn.
      fold t_subset in Hn. split.
      * simpl. apply Is_true_true, Nat.ltb_lt. exact Hlt.
      * exists (t, k). split; [by rewrite Hn|]. apply Hkeys.
        destruct (filter (fun r => bool_decide (Topics.group_key r = (t, k))) t_subset)
          as [|r rs] eqn:E; [simpl in Hn; lia|].
        assert (Hr : r ∈ filter (fun r => bool_decide (Topics.group_key r = (t, k)))
                         t_subset) by (rewrite E; left).
        apply list_elem_of_filter in Hr as [Hk Hr]. rewrite bool_decide_spec in Hk.
        exists r. split; [by apply list_elem_of_In | done].
Qed.

(** ** Keyword frequencies *)

Lemma StronglySorted_app_l {A : Type} (R : A -> A -> Prop) (l1 l2 : list A) :
  StronglySorted R (l1 ++ l2) -> StronglySorted R l1.
Proof.
  induction l1 as [|a l1 IH]; [constructor|].
  simpl. intros Hs. apply StronglySorted_inv in Hs as [Hs Ha].
  constructor; [by apply IH|].
  rewrite Forall_app in Ha. tauto.
Qed.

Lemma display_rows_In {L : Type} (kw_df : list (L * scalar)) (l : L) (k : scalar) :
  In (l, k) (KeywordFreq.display_rows kw_df)
  <-> KeywordFreq.is_stop k = false
      /\ exists k0, In (l, k0) kw_df /\ k = Keywords.normalize_kw_display k0.
Proof.
  unfold KeywordFreq.display_rows.
  rewrite <- list_elem_of_In, list_elem_of_filter, list_elem_of_In, in_map_iff.
  simpl. rewrite negb_True, Is_true_false. split.
  - intros [Hs ([l0 k0] & Heq & Hin)]. simpl in Heq. injection Heq as <- <-.
    split; [done|]. by exists k0.
  - intros [Hs (k0 & Hin & ->)]. split; [done|]. by exists (l, k0).
Qed.

Lemma normalize_twice (x : scalar) :
  Keywords.normalize_kw_display (Keywords.normalize_kw_display x)
  = Keywords.normalize_kw_display x.
Proof.
  destruct x as [| |q|t]; try reflexivity.
  destruct (normalize_output_fixed t) as (s & -> & Hs).
  by apply fixed_token_normalize.
Qed.

(** X14. The keyword chart of one sentiment: at most ten keywords, each
    once, the counts in non-increasing order; a keyword shown is never
    missing, never a stop word, and is its own canonical form; its count is
    the number of rows of that sentiment that carry it, and no keyword left
    out of the chart has more rows than one that is shown. *)
Theorem top_keywords_chart (sent_filter : pystr) (kw_df : list (pystr * scalar)) :
  let rows := filter (fun row => str_eqb (fst row) sent_filter)
                     (KeywordFreq.display_rows kw_df) in
  let kws := filter (fun k => negb (is_na k)) (map snd rows) in
  let shown := KeywordFreq.top_keywords sent_filter (KeywordFreq.display_rows kw_df) in
  (length shown <= 10)%nat
  /\ NoDup (map fst shown)
  /\ StronglySorted (fun a b => (snd b <= snd a)%nat) shown
  /\ forall (k : scalar) (n : nat),
      In (k, n) shown ->
      is_na k = false
      /\ KeywordFreq.is_stop k = false
      /\ Keywords.normalize_kw_display k = k
      /\ n = count_of k kws /\ (0 < n)%nat
      /\ forall k', In k' kws -> In k' (map fst shown) \/ (count_of k' kws <= n)%nat.
Proof.
  intros rows kws shown.
  assert (Hshown : shown = firstn 10 (value_counts kws)) by reflexivity.
  assert (Hsplit : value_counts kws = shown ++ drop 10 (value_counts kws)).
  { by rewrite Hshown, take_drop. }
  split; [rewrite Hshown, length_firstn; lia|]. split.
  { eapply sublist_NoDup; [apply (value_counts_NoDup kws)|].
    rewrite Hshown. apply fmap_sublist, sublist_take. }
  split.
  { eapply StronglySorted_app_l. rewrite <- Hsplit. apply value_counts_sorted. }
  intros k n Hin.
  assert (Hvc : In (k, n) (value_counts kws)).
  { rewrite Hsplit. apply in_or_app. by left. }
  apply value_counts_In in Hvc as [Hk Hn].
  assert (Hk' := Hk).
  apply list_elem_of_In, list_elem_of_filter in Hk' as [Hna Hk'].
  apply negb_True, Is_true_false in Hna.
  apply list_elem_of_In, in_map_iff in Hk' as ([l k0] & Hk0 & Hrow).
  simpl in Hk0. subst k0.
  apply list_elem_of_In, list_elem_of_filter in Hrow as [_ Hrow].
  apply list_elem_of_In, display_rows_In in Hrow as [Hstop (k0 & _ & Hnorm)].
  split; [done|]. split; [done|]. split; [rewrite Hnorm; apply normalize_twice|].
  split; [done|]. split.
  { rewrite Hn. unfold count_of.
    destruct (filter (fun y => bool_decide (y = k)) kws) as [|y ys] eqn:E;
      [|simpl; lia].
    exfalso. assert (Hk2 : k ∈ filter (fun y => bool_decide (y = k)) kws).
    { apply list_elem_of_filter. split; [by rewrite bool_decide_spec|].
      by apply list_elem_of_In. }
    rewrite E in Hk2. by apply elem_of_nil in Hk2. }
  intros k' Hk2.
  assert (Hvc' : In (k', count_of k' kws) (value_counts kws)).
  { by apply value_counts_In. }
  rewrite Hsplit in Hvc'. apply in_app_or in Hvc' as [Hs | Hd].
  - left. apply in_map_iff. by exists (k', count_of k' kws).
  - right.
    pose proof (value_counts_sorted kws) as Hsorted. rewrite Hsplit in Hsorted.
    exact (StronglySorted_app_inv _ _ _ Hsorted _ _ Hin Hd).
Qed.

(** ** Version order *)

Lemma tuple_ltb_irrefl (a : list N) : Versions.tuple_ltb a a = false.
Proof.
  destruct (Versions.tuple_ltb a a) eqn:E; [|done].
  pose proof (tuple_ltb_asym a a E). congruence.
Qed.

(** X15. The version axis of the trend view lists each version of the
    frame once and no other string; versions that parse to the same triple
    stand in the order of their first appearance in the frame. *)
Theorem ver_order_distinct_stable (df : list Versions.trend_row) :
  NoDup (Versions.ver_order df)
  /\ (forall v : pystr,
         In v (Versions.ver_order df)
         <-> exists row, In row df /\ Versions.appVersion row = Some v)
  /\ (forall t : list N,
         filter (fun v => bool_decide (Versions.parse_version (SStr v) = t))
                (Versions.ver_order df)
         = filter (fun v => bool_decide (Versions.parse_version (SStr v) = t))
                  (Versions.unique_versions df)).
Proof.
  unfold Versions.ver_order, Versions.try_semantic_sort. split; [|split].
  - rewrite (sorted_by_perm _ _ _). apply unique_NoDup.
  - intros v. rewrite sorted_by_In. unfold Versions.unique_versions, dropna.
    rewrite unique_In, <- list_elem_of_In, list_elem_of_omap. split.
    + intros (o & Ho & Hv). destruct o as [w|]; [|done]. simpl in Hv.
      injection Hv as ->.
      apply list_elem_of_In, in_map_iff in Ho as (row & Hrow & Hin). by exists row.
    + intros (row & Hin & Hrow). exists (Some v). split; [|done].
      apply list_elem_of_In, in_map_iff. by exists row.
  - intros t. apply (sorted_by_stable _ _ tuple_ltb_irrefl).
Qed.

(** ** Release notes *)

Lemma lstrip_nil_iff (s : pystr) : lstrip s = [] <-> forallb is_space s = true.
Proof.
  induction s as [|c s IH]; simpl; [done|].
  destruct (is_space c); simpl; [exact IH | done].
Qed.

Lemma strip_nil_iff (s : pystr) : strip s = [] <-> forallb is_space s = true.
Proof.
  split.
  - intros E. apply lstrip_nil_iff.
    unfold strip, rstrip in E.
    assert (E' : lstrip (rev (lstrip s)) = []).
    { apply (f_equal (@rev N)) in E. by rewrite rev_involutive in E. }
    apply lstrip_nil_iff in E'. rewrite forallb_rev in E'.
    destruct (lstrip_head s) as [H | (c & t & H & Hc)]; [done|].
    rewrite H in E'. simpl in E'. by rewrite Hc in E'.
  - intros H. apply lstrip_nil_iff in H. unfold strip. by rewrite H.
Qed.

Lemma split_on_blank (c : N) (s : pystr) :
  is_space c = true ->
  Forall (fun t => forallb is_space t = true) (split_on c s) ->
  forallb is_space s = true.
Proof.
  intros Hc. induction s as [|d s IH]; simpl; [done|].
  destruct (d =? c) eqn:E.
  - apply N.eqb_eq in E. subst d. rewrite Hc. simpl.
    intros H. inversion H; subst. by apply IH.
  - destruct (split_on c s) as [|tok toks] eqn:Es.
    + intros H. inversion H as [|? ? Hd _]; subst. simpl in Hd.
      apply andb_true_iff in Hd as [Hd _]. rewrite Hd. simpl. apply IH. constructor.
    + intros H. inversion H as [|? ? Hd Ht]; subst. simpl in Hd.
      apply andb_true_iff in Hd as [Hd Htok]. rewrite Hd. simpl. apply IH.
      by constructor.
Qed.

Lemma first_token_trimmed (c : pystr) :
  c <> [] -> strip c = c ->
  exists k, Impact.first_token c = Some k /\ k <> [].
Proof.
  intros Hne Hs. rewrite <- Hs in Hne.
  destruct (strip_ends_nonblank c Hne) as [H1 _]. rewrite Hs in H1.
  unfold Impact.first_token. destruct c as [|d c]; [done|].
  unfold ListField.starts_nonblank in H1. simpl in *.
  destruct (is_space d) eqn:Ed; [done|].
  eexists. split; [reflexivity|]. simpl. by rewrite Ed.
Qed.

Lemma results_cons (before_df after_df : list Scores.row) (c : pystr)
      (cs : list pystr) (k : pystr) :
  Impact.first_token c = Some k ->
  Impact.results before_df after_df (c :: cs)
  = {| Impact.r_change := c;
       Impact.r_before_count := length (filter (Impact.contains k) before_df);
       Impact.r_after_count := length (filter (Impact.contains k) after_df);
       Impact.r_before_avg := Impact.avg_or_none (filter (Impact.contains k) before_df);
       Impact.r_after_avg := Impact.avg_or_none (filter (Impact.contains k) after_df) |}
    :: Impact.results before_df after_df cs.
Proof.
  intros Hk. unfold Impact.results. cbn [omap list_omap]. by rewrite Hk.
Qed.

Lemma changes_of_In (text c : pystr) :
  In c (Release.changes_of text)
  <-> c <> [] /\ exists line, In line (split_on Release.ch_newline text)
                              /\ c = strip line.
Proof.
  unfold Release.changes_of, str_eqb.
  rewrite <- list_elem_of_In, list_elem_of_filter, list_elem_of_In, in_map_iff.
  rewrite negb_True, bool_decide_spec. split.
  - intros [Hne (line & <- & Hin)]. split; [done|]. by exists line.
  - intros [Hne (line & Hin & ->)]. split; [done|]. by exists line.
Qed.

(** X16. The changes read from the release text are the trimmed lines
    that are not blank: each is non-empty, has no blank at either end and
    no line break. There is at least one exactly when the text is not
    blank, so past the stop on an empty text the list is never empty; and
    each change has a first word, so the analysis produces one result per
    change, in order, skipping none. *)
Theorem changes_all_analysed (release_text : pystr)
        (before_df after_df : list Scores.row) :
  Forall (fun c => c <> [] /\ strip c = c /\ ~ In Release.ch_newline c
                   /\ exists k, Impact.first_token c = Some k /\ k <> [])
         (Release.changes_of release_text)
  /\ (Release.has_text release_text = true <-> Release.changes_of release_text <> [])
  /\ map Impact.r_change
         (Impact.results before_df after_df (Release.changes_of release_text))
     = Release.changes_of release_text.
Proof.
  assert (Hall : Forall (fun c => c <> [] /\ strip c = c
                                  /\ ~ In Release.ch_newline c
                                  /\ exists k, Impact.first_token c = Some k /\ k <> [])
                        (Release.changes_of release_text)).
  { apply Forall_forall. intros c Hc.
    apply list_elem_of_In, changes_of_In in Hc as [Hne (line & Hline & ->)].
    split; [done|]. split; [apply strip_idemp|]. split.
    - intros Hin.
      pose proof (split_on_tokens_no_sep Release.ch_newline release_text) as Hno.
      rewrite Forall_forall in Hno.
      specialize (Hno line (proj2 (list_elem_of_In _ _) Hline)).
      apply (forallb_strip (fun d => negb (d =? Release.ch_newline))) in Hno.
      rewrite forallb_forall in Hno. specialize (Hno _ Hin).
      by rewrite N.eqb_refl in Hno.
    - apply first_token_trimmed; [done | apply strip_idemp]. }
  split; [exact Hall|]. split.
  - unfold Release.has_text, str_eqb. rewrite negb_true_iff, bool_decide_eq_false.
    rewrite strip_nil_iff. split.
    + intros Hblank Hnil. apply Hblank.
      apply (split_on_blank Release.ch_newline); [done|].
      apply Forall_forall. intros line Hline. apply strip_nil_iff.
      destruct (strip line) as [|d l] eqn:E; [done|]. exfalso.
      assert (Hin : In (strip line) (Release.changes_of release_text)).
      { apply changes_of_In. split; [by rewrite E|].
        exists line. split; [by apply list_elem_of_In | done]. }
      by rewrite Hnil in Hin.
    + intros Hne Hblank. apply Hne.
      destruct (Release.changes_of release_text) as [|c cs] eqn:E; [done|]. exfalso.
      assert (Hin : In c (Release.changes_of release_text)) by (rewrite E; by left).
      apply changes_of_In in Hin as [Hc (line & Hline & ->)].
      apply Hc, strip_nil_iff.
      pose proof (split_on_tokens_forallb is_space Release.ch_newline
                    release_text Hblank) as Hl.
      rewrite Forall_forall in Hl. apply Hl. by apply list_elem_of_In.
  - induction Hall as [|c cs (_ & _ & _ & k & Hk & _) _ IH]; [done|].
    rewrite (results_cons _ _ _ _ _ Hk). cbn [map Impact.r_change]. by rewrite IH.
Qed.

(** ** Before and after the update *)

Lemma partition_perm (df : list Scores.row) (d : Z) :
  Permutation df (Impact.before_part df d ++ Impact.after_part df d).
Proof.
  unfold Impact.before_part, Impact.after_part.
  induction df as [|r df IH]; [done|].
  destruct (Scores.at_time r <? d)%Z eqn:E.
  - rewrite (filter_cons_True _ r df) by (by rewrite E).
    rewrite (filter_cons_False _ r df).
    2:{ rewrite Z.leb_antisym, E. simpl. tauto. }
    simpl. by constructor.
  - rewrite (filter_cons_False _ r df) by (rewrite E; simpl; tauto).
    rewrite (filter_cons_True _ r df).
    2:{ by rewrite Z.leb_antisym, E. }
    rewrite <- Permutation_middle. by constructor.
Qed.

Lemma filter_perm_length {A : Type} (f : A -> bool) (l l' : list A) :
  Permutation l l' -> length (filter (fun x => f x) l) = length (filter (fun x => f x) l').
Proof.
  intros H. apply Permutation_length. by rewrite H.
Qed.

Lemma avg_or_none_count (sub : list Scores.row) :
  Impact.avg_or_none sub = None <-> length sub = 0%nat.
Proof. by destruct sub. Qed.

Lemma results_In (before_df after_df : list Scores.row) (changes : list pystr)
      (r : Impact.result) :
  In r (Impact.results before_df after_df changes) ->
  In (Impact.r_change r) changes
  /\ exists k, Impact.first_token (Impact.r_change r) = Some k
       /\ Impact.r_before_count r = length (filter (Impact.contains k) before_df)
       /\ Impact.r_after_count r = length (filter (Impact.contains k) after_df)
       /\ Impact.r_before_avg r = Impact.avg_or_none (filter (Impact.contains k) before_df)
       /\ Impact.r_after_avg r = Impact.avg_or_none (filter (Impact.contains k) after_df).
Proof.
  unfold Impact.results. intros H.
  apply list_elem_of_In, list_elem_of_omap in H as (c & Hc & H).
  destruct (Impact.first_token c) as [k|] eqn:Hk; [|done].
  injection H as <-. simpl. split; [by apply list_elem_of_In|].
  exists k. by rewrite Hk.
Qed.

(** X17. The update date splits the reviews in two: every review is
    before it or not before it, never both. For each analysed change the
    matches before and after add up to the reviews of the whole frame that
    mention its first word, and a side has no average exactly when it has
    no match. *)
Theorem results_counts (df : list Scores.row) (update_date : Z)
        (changes : list pystr) :
  Permutation df (Impact.before_part df update_date
                  ++ Impact.after_part df update_date)
  /\ Forall (fun r =>
               In (Impact.r_change r) changes
               /\ exists k,
                   Impact.first_token (Impact.r_change r) = Some k
                   /\ (Impact.r_before_count r + Impact.r_after_count r
                       = length (filter (Impact.contains k) df))%nat
                   /\ (Impact.r_before_avg r = None <-> Impact.r_before_count r = 0%nat)
                   /\ (Impact.r_after_avg r = None <-> Impact.r_after_count r = 0%nat))
            (Impact.results (Impact.before_part df update_date)
                            (Impact.after_part df update_date) changes).
Proof.
  split; [apply partition_perm|].
  apply Forall_forall. intros r Hr.
  apply list_elem_of_In, results_In in Hr as (Hc & k & Hk & Hbc & Hac & Hba & Haa).
  split; [done|]. exists k. split; [done|].
  rewrite Hbc, Hac, Hba, Haa. split; [|split; apply avg_or_none_count].
  rewrite (filter_perm_length (Impact.contains k) _ _ (partition_perm df update_date)).
  by rewrite filter_app, length_app.
Qed.

Lemma avg_or_none_mean (sub : list Scores.row) (m : Qc) :
  Impact.avg_or_none sub = Some m ->
  mean (map (fun r => Qc_of_Z (Scores.score r)) sub) = Fin m.
Proof.
  destruct sub as [|r sub]; [done|]. unfold Impact.avg_or_none, mean.
  cbn [map length]. rewrite length_map. by intros [= <-].
Qed.

Lemma avg_or_none_bounds (lo hi : Z) (sub : list Scores.row) (m : Qc) :
  Forall (fun r => (lo <= Scores.score r <= hi)%Z) sub ->
  Impact.avg_or_none sub = Some m ->
  (Qc_of_Z lo ≤ m)%Qc /\ (m ≤ Qc_of_Z hi)%Qc.
Proof.
  intros Hall Hm. apply avg_or_none_mean in Hm.
  destruct (mean_bounds (Qc_of_Z lo) (Qc_of_Z hi)
              (map (fun r => Qc_of_Z (Scores.score r)) sub)) as (m' & Hm' & Hb).
  - destruct sub; [done | discriminate].
  - apply Forall_forall. intros x Hx.
    apply list_elem_of_In, in_map_iff in Hx as (r & <- & Hr).
    rewrite Forall_forall in Hall.
    specialize (Hall r (proj2 (list_elem_of_In _ _) Hr)).
    split; apply (proj1 (Z2Qc_inj_le _ _)); lia.
  - rewrite Hm in Hm'. by injection Hm' as <-.
Qed.

(** X18. When every score of the frame lies between [lo] and [hi], so
    does every average reported for a change, before or after the update:
    with star ratings from 1 to 5 the averages are between 1 and 5. *)
Theorem result_averages_in_range (lo hi : Z) (df : list Scores.row)
        (update_date : Z) (changes : list pystr) :
  Forall (fun row => (lo <= Scores.score row <= hi)%Z) df ->
  Forall (fun r =>
            forall m, Impact.r_before_avg r = Some m \/ Impact.r_after_avg r = Some m ->
                      (Qc_of_Z lo ≤ m)%Qc /\ (m ≤ Qc_of_Z hi)%Qc)
         (Impact.results (Impact.before_part df update_date)
                         (Impact.after_part df update_date) changes).
Proof.
  intros Hall. apply Forall_forall. intros r Hr.
  apply list_elem_of_In, results_In in Hr as (_ & k & _ & _ & _ & Hba & Haa).
  assert (Hsub : forall part : list Scores.row,
             (forall x, In x part -> In x df) ->
             Forall (fun r => (lo <= Scores.score r <= hi)%Z)
                    (filter (Impact.contains k) part)).
  { intros part Hpart. apply Forall_forall. intros x Hx.
    apply list_elem_of_filter in Hx as [_ Hx]. rewrite Forall_forall in Hall.
    apply Hall, list_elem_of_In, Hpart. by apply list_elem_of_In. }
  intros m [Hm | Hm].
  - rewrite Hba in Hm. eapply avg_or_none_bounds; [|exact Hm].
    apply Hsub. intros x Hx.
    apply list_elem_of_In, list_elem_of_filter in Hx as [_ Hx]. by apply list_elem_of_In.
  - rewrite Haa in Hm. eapply avg_or_none_bounds; [|exact Hm].
    apply Hsub. intros x Hx.
    apply list_elem_of_In, list_elem_of_filter in Hx as [_ Hx]. by apply list_elem_of_In.
Qed.

Lemma result_averages_in_range_witness :
  Forall (fun row => (1 <= Scores.score row <= 5)%Z) Impact.reviews_example
  /\ Forall (fun r =>
               forall m, Impact.r_before_avg r = Some m \/ Impact.r_after_avg r = Some m ->
                         (Qc_of_Z 1 ≤ m)%Qc /\ (m ≤ Qc_of_Z 5)%Qc)
            (Impact.results (Impact.before_part Impact.reviews_example 3)
                            (Impact.after_part Impact.reviews_example 3)
                            Impact.changes_example)
  /\ length (Impact.results (Impact.before_part Impact.reviews_example 3)
                            (Impact.after_part Impact.reviews_example 3)
                            Impact.changes_example) = 2%nat.
Proof.
  assert (H : Forall (fun row => (1 <= Scores.score row <= 5)%Z) Impact.reviews_example).
  { repeat constructor; simpl; lia. }
  split; [exact H|]. split; [|by vm_compute].
  exact (result_averages_in_range 1 5 Impact.reviews_example 3 Impact.changes_example H).
Defined.

(** ** Scores of the impact table *)







(** ** Sentiment trend by version *)

Lemma sorted_by_map {A B K : Type} (ltb : K -> K -> bool) (key : B -> K)
      (f : A -> B) (l : list A) :
  sorted_by ltb key (map f l) = map f (sorted_by ltb (fun x => key (f x)) l).
Proof.
  unfold sorted_by. induction l as [|x l IH]; [done|].
  cbn [map foldr]. rewrite IH. generalize (foldr (insert_by ltb (fun x => key (f x))) [] l).
  intros s. induction s as [|y s IHs]; [done|].
  simpl. destruct (ltb (key (f y)) (key (f x))); [|done]. by rewrite IHs.
Qed.

Lemma filter_map_comm {A B : Type} (p : B -> bool) (f : A -> B) (l : list A) :
  filter (fun y => p y) (map f l) = map f (filter (fun x => p (f x)) l).
Proof.
  induction l as [|x l IH]; [done|]. cbn [map].
  destruct (p (f x)) eqn:E.
  - rewrite !filter_cons_True by (by rewrite E). cbn [map]. by rewrite IH.
  - rewrite !filter_cons_False by (rewrite E; simpl; tauto). exact IH.
Qed.

Lemma filter_ext_In {A : Type} (f g : A -> bool) (l : list A) :
  (forall x, In x l -> f x = g x) ->
  filter (fun x => f x) l = filter (fun x => g x) l.
Proof.
  induction l as [|x l IH]; [done|]. intros H.
  rewrite !(filter_cons _ x l), IH by (intros y Hy; apply H; by right).
  specialize (H x (or_introl eq_refl)).
  destruct (decide (f x)) as [Hf|Hf], (decide (g x)) as [Hg|Hg];
    try done; rewrite H in Hf; tauto.
Qed.

Lemma StronglySorted_impl_In {A : Type} (R R' : A -> A -> Prop) (l : list A) :
  (forall x y, In x l -> In y l -> R x y -> R' x y) ->
  StronglySorted R l -> StronglySorted R' l.
Proof.
  intros H Hs. induction Hs as [|x l Hs IH Hx]; [constructor|].
  constructor.
  - apply IH. intros a b Ha Hb. apply H; by right.
  - rewrite Forall_forall in Hx. apply Forall_forall. intros y Hy.
    apply H; [by left | right; by apply list_elem_of_In | by apply Hx].
Qed.

Lemma StronglySorted_filter_bool {A : Type} (R : A -> A -> Prop) (p : A -> bool)
      (l : list A) :
  StronglySorted R l -> StronglySorted R (filter (fun x => p x) l).
Proof.
  induction 1 as [|x l Hs IH Hx]; [constructor|].
  rewrite filter_cons. destruct (decide (p x)); [|exact IH].
  constructor; [exact IH|].
  rewrite Forall_forall in Hx. apply Forall_forall. intros y Hy.
  apply list_elem_of_filter in Hy as [_ Hy]. by apply Hx.
Qed.

Lemma sorted_perm_eq {A : Type} (key : A -> nat) (l1 l2 : list A) :
  (forall x y, In x l1 -> In y l1 -> key x = key y -> x = y) ->
  StronglySorted (fun x y => (key x <= key y)%nat) l1 ->
  StronglySorted (fun x y => (key x <= key y)%nat) l2 ->
  Permutation l1 l2 -> l1 = l2.
Proof.
  revert l2. induction l1 as [|x l1 IH]; intros l2 Hinj H1 H2 Hp.
  - by apply Permutation_nil in Hp.
  - destruct l2 as [|y l2]; [by apply Permutation_sym, Permutation_nil in Hp|].
    apply StronglySorted_inv in H1 as [H1 Hx], H2 as [H2 Hy].
    rewrite Forall_forall in Hx, Hy.
    assert (Hxy : x = y).
    { assert (Hy1 : In y (x :: l1)).
      { apply (Permutation_in _ (Permutation_sym Hp)). by left. }
      assert (Hx2 : In x (y :: l2)).
      { apply (Permutation_in _ Hp). by left. }
      apply Hinj; [by left | done |].
      destruct Hy1 as [-> | Hy1]; [done|].
      destruct Hx2 as [-> | Hx2]; [done|].
      apply Nat.le_antisymm; [apply Hx | apply Hy]; by apply list_elem_of_In. }
    subst y. f_equal. apply IH; try done.
    + intros a b Ha Hb. apply Hinj; by right.
    + by apply Permutation_cons_inv in Hp.
Qed.

Lemma cat_code_inj (cats : list pystr) (x y : pystr) :
  In x cats -> Trend.cat_code cats x = Trend.cat_code cats y -> x = y.
Proof.
  induction cats as [|c cats IH]; [done|]. simpl.
  intros Hx. case_bool_decide as E1; case_bool_decide as E2; try done.
  - congruence.
  - intros [= H]. destruct Hx as [Hx|Hx]; [done|]. by apply IH.
Qed.

Lemma cat_code_sorted (cats : list pystr) :
  NoDup cats ->
  StronglySorted (fun x y => (Trend.cat_code cats x <= Trend.cat_code cats y)%nat) cats.
Proof.
  induction 1 as [|c cats Hc Hnd IH]; constructor.
  - eapply StronglySorted_impl_In; [|exact IH].
    intros x y Hx Hy Hxy. simpl.
    assert (Hne : forall v, In v cats -> bool_decide (c = v) = false).
    { intros v Hv. apply bool_decide_eq_false. intros ->.
      apply Hc. by apply list_elem_of_In. }
    rewrite (Hne x Hx), (Hne y Hy). cbv beta in Hxy. lia.
  - apply Forall_forall. intros y _. simpl.
    rewrite bool_decide_eq_true_2 by done. lia.
Qed.

(** Sorting by category code picks the members out of the categories. *)
Lemma sort_by_category (cats l : list pystr) :
  NoDup cats -> NoDup l -> (forall v, In v l -> In v cats) ->
  sorted_by Nat.ltb (Trend.cat_code cats) l
  = filter (fun v => bool_decide (v ∈ l)) cats.
Proof.
  intros Hc Hl Hsub.
  assert (Hasym : forall a b, Nat.ltb a b = true -> Nat.ltb b a = false).
  { intros a b H. apply Nat.ltb_lt in H. apply Nat.ltb_ge. lia. }
  apply (sorted_perm_eq (Trend.cat_code cats)).
  - intros x y Hx _. apply cat_code_inj, Hsub. by apply sorted_by_In in Hx.
  - apply Sorted_StronglySorted; [intros a b c; lia|].
    eapply Sorted_ind with (P := fun l' => Sorted _ l');
      [constructor | | apply (sorted_by_sorted Nat.ltb (Trend.cat_code cats) Hasym l)].
    intros x s _ IH Hhd. constructor; [exact IH|].
    destruct Hhd as [|y s Hxy]; constructor.
    unfold key_le in Hxy. by apply Nat.ltb_ge in Hxy.
  - apply StronglySorted_filter_bool, cat_code_sorted, Hc.
  - rewrite (sorted_by_perm _ _ _). apply NoDup_Permutation; [done | |].
    + by apply NoDup_filter.
    + intros v. rewrite list_elem_of_filter, bool_decide_spec.
      split; [|tauto]. intros Hv. split; [done|].
      by apply list_elem_of_In, Hsub, list_elem_of_In.
Qed.

Lemma grouped_versions (df : list Trend.trend_review) :
  map fst (Trend.grouped df) = dropna (map Versions.appVersion (map fst df)).
Proof.
  unfold Trend.grouped, dropna. induction df as [|[r label] df IH]; [done|].
  cbn [map omap list_omap fst snd].
  destruct (Versions.appVersion r); cbn [id map fst]; by rewrite IH.
Qed.

Lemma grouped_In (df : list Trend.trend_review) (v label : pystr) :
  In (v, label) (Trend.grouped df)
  <-> exists r, In (r, label) df /\ Versions.appVersion r = Some v.
Proof.
  unfold Trend.grouped. rewrite <- list_elem_of_In, list_elem_of_omap. split.
  - intros ([r l] & Hin & H). simpl in H.
    destruct (Versions.appVersion r) as [w|] eqn:E; [|done].
    injection H as -> ->. exists r. split; [by apply list_elem_of_In | done].
  - intros (r & Hin & E). exists (r, label). split; [by apply list_elem_of_In|].
    simpl. by rewrite E.
Qed.

(** X20. The sentiment trend by version. Building the table fails (a
    [KeyError]) exactly when one of the labels Negative, Neutral, Positive
    is carried by no review that has a version. Otherwise the table has
    one row for each version with more than ten reviews of these three
    labels, in the order of the version axis, with the number of reviews
    of each label. *)
Theorem trend_table_versions (df : list Trend.trend_review) :
  (Trend.trend_table df = None
   <-> exists label,
       In label [py "Negative"; py "Neutral"; py "Positive"]
       /\ forall r, In (r, label) df -> Versions.appVersion r = None)
  /\ forall rows,
      Trend.trend_table df = Some rows ->
      rows = map (Trend.entry_of (Trend.grouped df))
                 (filter (fun v => (10 <? Trend.e_total
                                            (Trend.entry_of (Trend.grouped df) v))%nat)
                         (Versions.ver_order (map fst df))).
Proof.
  unfold Trend.trend_table.
  set (g := Trend.grouped df).
  set (labels := [py "Negative"; py "Neutral"; py "Positive"]).
  assert (Hcol : forall label, label ∈ unique (map snd g)
                   <-> exists r, In (r, label) df /\ Versions.appVersion r <> None).
  { intros label. rewrite list_elem_of_In, unique_In, in_map_iff. split.
    - intros ([v l] & Hl & Hin). simpl in Hl. subst l.
      apply grouped_In in Hin as (r & Hin & E). exists r. split; [done|]. by rewrite E.
    - intros (r & Hin & E). destruct (Versions.appVersion r) as [v|] eqn:Ev; [|done].
      exists (v, label). split; [done|]. apply grouped_In. by exists r. }
  destruct (forallb _ labels) eqn:Eall.
  - split.
    + split; [done|]. intros (label & Hl & Hnone). exfalso.
      rewrite forallb_forall in Eall. specialize (Eall label Hl).
      apply bool_decide_eq_true, Hcol in Eall as (r & Hin & E).
      by apply E, Hnone.
    + intros rows [= <-].
      rewrite filter_map_comm.
      rewrite (sorted_by_map Nat.ltb
                 (fun e => Trend.cat_code (Versions.ver_order (map fst df))
                                          (Trend.e_version e))
                 (Trend.entry_of g)).
      f_equal. cbn [Trend.entry_of Trend.e_version Trend.e_total].
      assert (Hperm : Permutation (Versions.ver_order (map fst df))
                                  (unique (map fst g))).
      { unfold Versions.ver_order, Versions.try_semantic_sort.
        rewrite (sorted_by_perm _ _ _). unfold Versions.unique_versions, g.
        by rewrite grouped_versions. }
      assert (Hnd : NoDup (Versions.ver_order (map fst df))).
      { rewrite Hperm. apply unique_NoDup. }
      rewrite sort_by_category; try done.
      * apply filter_ext_In. intros v Hv.
        apply eq_true_iff_eq. rewrite bool_decide_eq_true, list_elem_of_filter.
        rewrite Is_true_true. split; [tauto|]. intros Hbig. split; [done|].
        apply list_elem_of_In, sorted_by_In.
        apply (Permutation_in _ Hperm) in Hv. exact Hv.
      * apply NoDup_filter. rewrite (sorted_by_perm _ _ _). apply unique_NoDup.
      * intros v Hv. apply list_elem_of_In, list_elem_of_filter in Hv as [_ Hv].
        apply list_elem_of_In, sorted_by_In in Hv.
        apply (Permutation_in _ (Permutation_sym Hperm)). exact Hv.
  - split; [|done]. split; [|done]. intros _.
    assert (Hex : exists label, In label labels
                                /\ bool_decide (label ∈ unique (map snd g)) = false).
    { clear Hcol. induction labels as [|l ls IH]; [done|]. simpl in Eall.
      apply andb_false_iff in Eall as [E|E].
      - exists l. split; [by left | done].
      - destruct (IH E) as (l' & Hl' & H'). exists l'. split; [by right | done]. }
    destruct Hex as (label & Hl & Hno). exists label. split; [done|].
    intros r Hin. apply bool_decide_eq_false in Hno.
    destruct (Versions.appVersion r) as [v|] eqn:Ev; [|done].
    exfalso. apply Hno, Hcol. exists r. split; [done|]. by rewrite Ev.
Qed.

Lemma trend_table_versions_witness :
  exists rows,
    Trend.trend_table Trend.trend_example = Some rows
    /\ rows = map (Trend.entry_of (Trend.grouped Trend.trend_example))
                  (filter (fun v => (10 <? Trend.e_total
                                             (Trend.entry_of
                                                (Trend.grouped Trend.trend_example) v))%nat)
                          (Versions.ver_order (map fst Trend.trend_example)))
    /\ map Trend.e_version rows = [py "1.0"; py "2.0"].
Proof.
  eexists. split; [vm_compute; reflexivity|]. split; [|vm_compute; reflexivity].
  apply (proj2 (trend_table_versions Trend.trend_example)).
  vm_compute. reflexivity.
Defined.
